(** * fouriever.intercorr: covariance matrices for interferometric observables

    A shallow embedding of [src/fouriever/intercorr.py] (class [data], methods
    [add_vis2cov], [add_t3cov] and [add_cov]) together with the numpy
    operations these methods call, and the properties of the
    correlation-propagation engine.

    Numbers.  The program computes in IEEE double precision.  The embedding
    uses exact rationals ([Q] with its equality [==]): a statement about [Q]
    says what the lines compute when every value is finite and nothing is
    rounded.  Where rounding decides, for the symmetry of lines 209 and 213,
    module [Binary64] repeats the lines in double precision.

    Arrays.  A two-dimensional numpy array is a shape and a row-major buffer,
    a one-dimensional array is a list.  Operations that numpy refuses (shapes
    that cannot be aligned or broadcast) raise [ValueError].

    Effects.  The methods run in a state made of the fields of the object and
    of the directories and fits files they read and write; an exception
    leaves the state as it was when raised.  Messages printed to the
    terminal are left out.

    The operating system.  A path names a file through [resolve], so that two
    spellings of one path name one file.  [os.makedirs] raises on the empty
    path and [writeto] raises when the directory of the file is missing; the
    other reasons the operating system has to refuse a call are taken from
    [faults]. *)

From Stdlib Require Import QArith Lia List Arith Ascii Floats.
From stdpp Require Import gmap strings.

Import ListNotations.

(** ** Python exceptions and results *)

Inductive exn : Type :=
| ValueError    (* numpy: shapes not aligned / could not be broadcast *)
| IndexError    (* index out of range *)
| OSError       (* a missing file or directory, a call the system refuses *)
| UserWarning.  (* raised by the methods themselves *)

Inductive result (A : Type) : Type :=
| Ok (a : A)
| Raise (e : exn).

Arguments Ok {A} a.
Arguments Raise {A} e.

#[global] Instance result_ret : MRet result := fun A a => Ok a.
#[global] Instance result_bind : MBind result := fun A B f m =>
  match m with
  | Ok a => f a
  | Raise e => Raise e
  end.

(** [for x in xs: acc = body(x, acc)], stopping at the first exception. *)
Fixpoint for_each {A S : Type} (xs : list A) (body : A -> S -> result S)
    (acc : S) : result S :=
  match xs with
  | [] => Ok acc
  | x :: xs' =>
      match body x acc with
      | Ok acc' => for_each xs' body acc'
      | Raise e => Raise e
      end
  end.

(** [range(n)] *)
Definition range (n : nat) : list nat := seq 0 n.

(** [xs[i]] on a Python list. *)
Definition list_getitem {A : Type} (xs : list A) (i : nat) : result A :=
  match xs !! i with
  | Some x => Ok x
  | None => Raise IndexError
  end.

(** ** numpy arrays *)

(** One-dimensional arrays. *)
Definition vec := list Q.

(** Two-dimensional arrays: [shape] and the buffer in C (row-major) order. *)
Record ndarray : Type := mk_ndarray {
  shape : nat * nat;
  buffer : list Q
}.

Definition nrows (A : ndarray) : nat := fst (shape A).
Definition ncols (A : ndarray) : nat := snd (shape A).

(** The buffer holds exactly the entries the shape announces. *)
Definition wf_ndarray (A : ndarray) : Prop :=
  length (buffer A) = nrows A * ncols A.

(** Entry [A[i, j]] read from the buffer. *)
Definition get (A : ndarray) (i j : nat) : Q :=
  nth (i * ncols A + j) (buffer A) 0%Q.

(** [A[i, j]] with numpy's bounds check. *)
Definition getitem (A : ndarray) (i j : nat) : result Q :=
  if (i <? nrows A) && (j <? ncols A) then Ok (get A i j) else Raise IndexError.

(** The array of shape [(r, c)] whose entry [(i, j)] is [f i j]. *)
Definition from_fn (r c : nat) (f : nat -> nat -> Q) : ndarray :=
  {| shape := (r, c);
     buffer := flat_map (fun i => map (f i) (seq 0 c)) (seq 0 r) |}.

(** [np.ones(n)] *)
Definition np_ones (n : nat) : vec := repeat 1%Q n.

(** [np.zeros((r, c))] *)
Definition np_zeros (sh : nat * nat) : ndarray :=
  {| shape := sh; buffer := repeat 0%Q (fst sh * snd sh) |}.

(** [np.diag(v)] for a one-dimensional [v]: [v] on the main diagonal. *)
Definition np_diag (v : vec) : ndarray :=
  from_fn (length v) (length v)
    (fun i j => if i =? j then nth i v 0%Q else 0%Q).

(** [A * s] for a scalar [s]. *)
Definition mul_scalar (A : ndarray) (s : Q) : ndarray :=
  {| shape := shape A; buffer := map (fun x => (x * s)%Q) (buffer A) |}.

(** [A / s] for a scalar [s]. *)
Definition div_scalar (A : ndarray) (s : Q) : ndarray :=
  {| shape := shape A; buffer := map (fun x => (x / s)%Q) (buffer A) |}.

(** [A.T] *)
Definition transpose (A : ndarray) : ndarray :=
  from_fn (ncols A) (nrows A) (fun i j => get A j i).

(** [f 0 + f 1 + ... + f (n-1)], accumulated from the left. *)
Fixpoint sum_upto (n : nat) (f : nat -> Q) : Q :=
  match n with
  | O => 0%Q
  | S n' => (sum_upto n' f + f n')%Q
  end.

(** [np.dot(A, B)] for two-dimensional arrays. *)
Definition np_dot (A B : ndarray) : result ndarray :=
  if ncols A =? nrows B then
    Ok (from_fn (nrows A) (ncols B)
          (fun i j => sum_upto (ncols A) (fun k => (get A i k * get B k j)%Q)))
  else Raise ValueError.

(** [A.flatten()]: the entries in C order. *)
Definition flatten (A : ndarray) : vec := buffer A.

(** [v[:, None]] and [v[None, :]] *)
Definition as_column (v : vec) : ndarray := {| shape := (length v, 1); buffer := v |}.
Definition as_row (v : vec) : ndarray := {| shape := (1, length v); buffer := v |}.

(** numpy's broadcasting rule on one axis: equal lengths, or one of them 1. *)
Definition broadcast_dim (a b : nat) : option nat :=
  if a =? b then Some a
  else if a =? 1 then Some b
  else if b =? 1 then Some a
  else None.

(** Entry of [A] seen through broadcasting: an axis of length 1 is repeated. *)
Definition bget (A : ndarray) (i j : nat) : Q :=
  get A (if nrows A =? 1 then 0 else i) (if ncols A =? 1 then 0 else j).

(** [np.multiply(A, B)], also written [A * B]: the entrywise product of the
    two arrays broadcast to a common shape. *)
Definition np_multiply (A B : ndarray) : result ndarray :=
  match broadcast_dim (nrows A) (nrows B), broadcast_dim (ncols A) (ncols B) with
  | Some r, Some c => Ok (from_fn r c (fun i j => (bget A i j * bget B i j)%Q))
  | _, _ => Raise ValueError
  end.

(** [A[r0:r1, c0:c1] = B].  Slice bounds are clipped to the shape of [A];
    [B] must have the shape of the slice, up to broadcasting of axes of
    length 1. *)
Definition setitem_slice (A : ndarray) (r0 r1 c0 c1 : nat) (B : ndarray)
    : result ndarray :=
  let r0' := Nat.min r0 (nrows A) in
  let r1' := Nat.min r1 (nrows A) in
  let c0' := Nat.min c0 (ncols A) in
  let c1' := Nat.min c1 (ncols A) in
  let h := r1' - r0' in
  let w := c1' - c0' in
  if ((nrows B =? h) || (nrows B =? 1)) && ((ncols B =? w) || (ncols B =? 1)) then
    Ok (from_fn (nrows A) (ncols A)
          (fun i j =>
             if (r0' <=? i) && (i <? r0' + h) && (c0' <=? j) && (j <? c0' + w)
             then bget B (i - r0') (j - c0')
             else get A i j))
  else Raise ValueError.

(** ** The records supplied by the loader

    [inst.open] returns, per instrument found in a file, a list of
    dictionaries, one per exposure.  The methods below read the keys
    ['wave'], ['vis2'], ['dvis2'], ['t3mat'] and ['dt3'], which the record
    takes to be present. *)

Record exposure : Type := mk_exposure {
  wave : vec;       (* shape (Nwave,) *)
  vis2 : ndarray;   (* shape (Nbase, Nwave) *)
  dvis2 : ndarray;  (* shape (Nbase, Nwave) *)
  t3mat : ndarray;  (* shape (Ntria, Nbase) *)
  dt3 : ndarray     (* shape (Ntria, Nwave) *)
}.

(** ** The correlation-propagation engine *)

(** [np.multiply(cor, d.flatten()[:, None]*d.flatten()[None, :])]
    (lines 155 and 213). *)
Definition exposure_cov (cor d : ndarray) : result ndarray :=
  outer ← np_multiply (as_column (flatten d)) (as_row (flatten d));
  np_multiply cor outer.

(** [np.array(covs)] on a list of two-dimensional arrays: the stack of the
    arrays, which must all have one shape. *)
Definition np_array (covs : list ndarray) : result (list ndarray) :=
  match covs with
  | [] => Ok []
  | c :: _ =>
      if forallb (fun c' => (nrows c' =? nrows c) && (ncols c' =? ncols c)) covs
      then Ok covs else Raise ValueError
  end.

(** The loop over the exposures of one file (lines 152-156 and 210-214):
    [get_err] selects ['dvis2'] or ['dt3']. *)
Definition exposure_loop (get_err : exposure -> ndarray) (cor : ndarray)
    (exposures : list exposure) : result (list ndarray) :=
  for_each (range (length exposures))
    (fun j covs =>
       e ← list_getitem exposures j;
       cov ← exposure_cov cor (get_err e);
       Ok (covs ++ [cov]))
    [].

(** [np.diag(np.ones(n))] (lines 151 and 209). *)
Definition identity_cor (n : nat) : ndarray := np_diag (np_ones n).

(** Body of the loop over files in [add_vis2cov], lines 148-157: the
    covariances of the exposures of one file. *)
Definition vis2cov_file (exposures : list exposure) : result (list ndarray) :=
  e0 ← list_getitem exposures 0;
  let Nwave := length (wave e0) in
  let Nbase := nrows (vis2 e0) in
  let cor := identity_cor (Nwave * Nbase) in
  covs ← exposure_loop dvis2 cor exposures;
  np_array covs.

(** Lines 204-207: the transform from baselines to triangles. *)
Definition build_trafo (Nwave : nat) (t3mat : ndarray) : result ndarray :=
  let Nbase := ncols t3mat in
  let Ntria := nrows t3mat in
  for_each (range Ntria)
    (fun k trafo =>
       for_each (range Nbase)
         (fun l trafo =>
            c ← getitem t3mat k l;
            setitem_slice trafo (k * Nwave) ((k + 1) * Nwave)
                                (l * Nwave) ((l + 1) * Nwave)
              (mul_scalar (np_diag (np_ones Nwave)) c))
         trafo)
    (np_zeros (Nwave * Ntria, Nwave * Nbase)).

(** Line 209, [np.dot(trafo, np.dot(cbase, trafo.T))/3.], as a function of
    the base correlation, which the method takes to be the identity. *)
Definition propagate (trafo cbase : ndarray) : result ndarray :=
  inner ← np_dot cbase (transpose trafo);
  prod ← np_dot trafo inner;
  Ok (div_scalar prod 3).

(** Lines 199-209: the closure-phase correlation of one file. *)
Definition t3_cor (Nwave : nat) (t3mat : ndarray) : result ndarray :=
  let Nbase := ncols t3mat in
  trafo ← build_trafo Nwave t3mat;
  propagate trafo (identity_cor (Nwave * Nbase)).

(** Body of the loop over files in [add_t3cov], lines 199-215. *)
Definition t3cov_file (exposures : list exposure) : result (list ndarray) :=
  e0 ← list_getitem exposures 0;
  let t3mat := t3mat e0 in
  let Nwave := length (wave e0) in
  cor ← t3_cor Nwave t3mat;
  covs ← exposure_loop dt3 cor exposures;
  np_array covs.

(** ** The object and the file system *)

(** An image extension of a fits file: its [EXTNAME] and [INSNAME] header
    cards and the stacked covariances. *)
Record hdu : Type := mk_hdu {
  extname : string;
  insname : string;
  image : list ndarray
}.

(** The part of the outside world the methods touch.

    [resolve] sends a path to the canonical name of the file or directory it
    names: every spelling of one path (['in/a.fits'], ['./in/a.fits']) has
    the same canonical name.  [dirs] holds the canonical names of the
    directories and [files] the fits files, each a list of extensions, under
    their canonical names.

    [faults] holds the outcomes of the calls to come that the operating system
    can refuse for a reason that is not modelled (a permission, a full disk,
    a path that names a directory): [true] for a call that is refused,
    [false] for one that is not.  When the list is empty no call is refused
    for such a reason. *)
Record world : Type := mk_world {
  dirs : gset string;
  files : gmap string (list hdu);
  resolve : string -> string;
  faults : list bool
}.

(** The outcome of the next call the operating system can refuse, and the
    world with that outcome consumed. *)
Definition next_fault (w : world) : bool * world :=
  match faults w with
  | [] => (false, w)
  | b :: rest =>
      (b, {| dirs := dirs w; files := files w; resolve := resolve w; faults := rest |})
  end.

(** The fields of an instance of class [data]. *)
Record data : Type := mk_data {
  idir : string;
  fitsfiles : list string;
  inst_list : list string;
  data_list : list (list exposure);
  inst : string;
  observables : list string
}.

Record state : Type := mk_state {
  self : data;
  fs : world
}.

(** Methods: state transformers that return or raise; the state reached
    before an exception is kept. *)
Definition M (A : Type) : Type := state -> result A * state.

#[global] Instance M_ret : MRet M := fun A a s => (Ok a, s).
#[global] Instance M_bind : MBind M := fun A B f m s =>
  match m s with
  | (Ok a, s') => f a s'
  | (Raise e, s') => (Raise e, s')
  end.

Definition lift {A : Type} (r : result A) : M A := fun s => (r, s).
Definition raise {A : Type} (e : exn) : M A := fun s => (Raise e, s).
Definition get_self : M data := fun s => (Ok (self s), s).

(** [self.idir = d] *)
Definition set_idir (d : string) : M unit := fun s =>
  (Ok tt,
   {| self := {| idir := d;
                 fitsfiles := fitsfiles (self s);
                 inst_list := inst_list (self s);
                 data_list := data_list (self s);
                 inst := inst (self s);
                 observables := observables (self s) |};
      fs := fs s |}).

(** Paths as the program builds them, with [/] between directories. *)
Fixpoint has_slash (p : string) : bool :=
  match p with
  | EmptyString => false
  | String c r => Ascii.eqb c "/"%char || has_slash r
  end.

(** The directory part of a path: the path up to its last [/], or the empty
    string for a path with no [/], which names a file of the current
    directory. *)
Fixpoint dirname (p : string) : string :=
  match p with
  | EmptyString => EmptyString
  | String c r => if has_slash p then String c (dirname r) else EmptyString
  end.

(** The directories above a path: its prefixes that end in [/]. *)
Fixpoint dir_prefixes (p : string) : list string :=
  match p with
  | EmptyString => []
  | String c r =>
      (if Ascii.eqb c "/"%char then [String c EmptyString] else [])
      ++ map (String c) (dir_prefixes r)
  end.

(** The directory of the file that [p] names is there. *)
Definition dir_exists (w : world) (p : string) : bool :=
  bool_decide (dirname p = "") || bool_decide (resolve w (dirname p) ∈ dirs w).

(** [os.path.exists(p)]: the empty path names nothing. *)
Definition os_path_exists (p : string) : M bool := fun s =>
  (Ok (negb (bool_decide (p = ""))
       && (bool_decide (resolve (fs s) p ∈ dirs (fs s))
           || bool_decide (is_Some (files (fs s) !! resolve (fs s) p)))), s).

(** [os.makedirs(p)]: raises on the empty path and when the operating system
    refuses; otherwise it creates the directory and the directories above
    it. *)
Definition os_makedirs (p : string) : M unit := fun s =>
  if bool_decide (p = "") then (Raise OSError, s)
  else
    let (failed, w) := next_fault (fs s) in
    if failed then (Raise OSError, {| self := self s; fs := w |})
    else (Ok tt, {| self := self s;
                    fs := {| dirs := list_to_set (map (resolve w) (p :: dir_prefixes p))
                                     ∪ dirs w;
                             files := files w;
                             resolve := resolve w;
                             faults := faults w |} |}).

(** [pyfits.open(p)]: raises on a missing file and on a file with no
    extension at all.  The list returned stands for the whole file; astropy
    reads the primary extension at once and the others when they are
    needed. *)
Definition pyfits_open (p : string) : M (list hdu) := fun s =>
  match files (fs s) !! resolve (fs s) p with
  | Some (primary :: rest) => (Ok (primary :: rest), s)
  | _ => (Raise OSError, s)
  end.

(** [hdul += [hdu0]] on a list just opened.  Only the primary extension has
    been read then, so the new extension lands right behind it, and the
    other extensions of the file follow when the list is written. *)
Definition iadd_opened (hdul : list hdu) (hdu0 : hdu) : list hdu :=
  match hdul with
  | primary :: rest => primary :: hdu0 :: rest
  | [] => [hdu0]
  end.

(** [hdul.writeto(p, output_verify='fix', overwrite=True)]: raises when the
    directory of the file is missing and when the operating system refuses,
    and replaces the file otherwise. *)
Definition writeto (hdul : list hdu) (p : string) : M unit := fun s =>
  let (failed, w) := next_fault (fs s) in
  if failed || negb (dir_exists w p)
  then (Raise OSError, {| self := self s; fs := w |})
  else (Ok tt, {| self := self s;
                  fs := {| dirs := dirs w;
                           files := <[ resolve w p := hdul ]> (files w);
                           resolve := resolve w;
                           faults := faults w |} |}).

(** [for x in xs: body(x)] in a method. *)
Fixpoint for_eachM {A : Type} (xs : list A) (body : A -> M unit) : M unit :=
  match xs with
  | [] => mret tt
  | x :: xs' => body x ≫= (fun _ => for_eachM xs' body)
  end.

(** [np.where(np.array(l) == x)[0]]: the indices at which [l] holds [x]. *)
Fixpoint np_where_eq (l : list string) (x : string) (start : nat) : list nat :=
  match l with
  | [] => []
  | y :: l' =>
      if String.eqb y x then start :: np_where_eq l' x (S start)
      else np_where_eq l' x (S start)
  end.

(** Lines 139-145 and 190-196: the data of the selected instrument, one
    entry per file. *)
Definition selected_data_list : M (list (list exposure)) :=
  me ← get_self;
  let ww := np_where_eq (inst_list me) (inst me) 0 in
  data_list ← lift (for_each (range (length ww))
                      (fun i acc =>
                         w ← list_getitem ww i;
                         d ← list_getitem (data_list me) w;
                         Ok (acc ++ [d]))
                      []);
  if negb (length (fitsfiles me) =? length data_list) then raise UserWarning
  else mret data_list.

(** [if (not os.path.exists(odir)): os.makedirs(odir)] *)
Definition ensure_dir (odir : string) : M unit :=
  ex ← os_path_exists odir;
  if negb ex then os_makedirs odir else mret tt.

(** Lines 159-164 and 217-222: add the extension to the file read from
    [self.idir] and write it to [odir]. *)
Definition append_extension (name : string) (i : nat) (covs : list ndarray)
    (odir : string) : M unit :=
  me ← get_self;
  f ← lift (list_getitem (fitsfiles me) i);
  hdul ← pyfits_open (idir me +:+ f);
  let hdu0 := {| extname := name; insname := inst me; image := covs |} in
  me' ← get_self;
  f' ← lift (list_getitem (fitsfiles me') i);
  writeto (iadd_opened hdul hdu0) (odir +:+ f').

(** Method [add_vis2cov]. *)
Definition add_vis2cov (odir : string) : M unit :=
  _ ← ensure_dir odir;
  data_list ← selected_data_list;
  me ← get_self;
  for_eachM (range (length (fitsfiles me)))
    (fun i =>
       exposures ← lift (list_getitem data_list i);
       covs ← lift (vis2cov_file exposures);
       append_extension "VIS2COV" i covs odir).

(** Method [add_t3cov]. *)
Definition add_t3cov (odir : string) : M unit :=
  _ ← ensure_dir odir;
  data_list ← selected_data_list;
  me ← get_self;
  for_eachM (range (length (fitsfiles me)))
    (fun i =>
       exposures ← lift (list_getitem data_list i);
       covs ← lift (t3cov_file exposures);
       append_extension "T3COV" i covs odir).

(** Method [add_cov]. *)
Definition add_cov (odir : string) : M unit :=
  _ ← ensure_dir odir;
  _ ← add_vis2cov odir;
  me ← get_self;
  let temp := idir me in
  _ ← set_idir odir;
  _ ← add_t3cov odir;
  set_idir temp.

(** ** Vocabulary of the statements *)

(** Entry [(a, b)] of the identity matrix. *)
Definition delta (a b : nat) : Q := if a =? b then 1%Q else 0%Q.

(** Block [(k', l')] has been assigned when the loops of [build_trafo] reach
    iteration [(k, l)]. *)
Definition block_done (k l k' l' : nat) : bool :=
  (k' <? k) || ((k' =? k) && (l' <? l)).

(** State of [trafo] when the loops of [build_trafo] reach iteration
    [(k, l)]: the blocks already assigned hold the scaled identity, the
    others are still zero. *)
Definition trafo_inv (Nwave : nat) (t3mat : ndarray) (k l : nat) (T : ndarray) : Prop :=
  shape T = (Nwave * nrows t3mat, Nwave * ncols t3mat)
  /\ wf_ndarray T
  /\ forall k' l' a b,
       k' < nrows t3mat -> l' < ncols t3mat -> a < Nwave -> b < Nwave ->
       get T (k' * Nwave + a) (l' * Nwave + b)
       = if block_done k l k' l' then (delta a b * get t3mat k' l')%Q else 0%Q.

(** Matrices as the specification writes them: entries indexed by row and
    column, the product of an [_ x m] by an [m x _] matrix, the transpose. *)
Definition mat : Type := nat -> nat -> Q.

Definition mat_mul (m : nat) (A B : mat) : mat :=
  fun i j => sum_upto m (fun k => (A i k * B k j)%Q).

Definition mat_transpose (A : mat) : mat := fun i j => A j i.

(** The normalisation constant of the propagated correlation. *)
Definition norm : Q := 3%Q.

(** The propagated correlation in the words of the specification,
    [(T . C_base . T^t) / norm], for [T] with [n] columns. *)
Definition spec_propagated (n : nat) (T Cbase : mat) : mat :=
  fun i j => (mat_mul n (mat_mul n T Cbase) (mat_transpose T) i j / norm)%Q.

(** A square array equal to its transpose, entry by entry. *)
Definition symmetric (A : ndarray) : Prop :=
  nrows A = ncols A
  /\ forall i j, i < nrows A -> j < nrows A -> (get A i j == get A j i)%Q.

(** [u[:, None] * u[None, :]] is the outer product of [u] with itself. *)
Definition outer (u : vec) : ndarray :=
  from_fn (length u) (length u)
    (fun i j => (bget (as_column u) i j * bget (as_row u) i j)%Q).

(** ** Concrete inputs *)

(** One closure triangle over three baselines. *)
Definition t3mat_one_triangle : ndarray :=
  {| shape := (1, 3); buffer := [1; -1; 1]%Q |}.

(** Two rows over four baselines that share the first baseline; the second
    row has two nonzero coefficients only. *)
Definition t3mat_shared_baseline : ndarray :=
  {| shape := (2, 4); buffer := [1; 1; 1; 0; 1; 0; 0; 1]%Q |}.

(** The four closure triangles of a four-telescope array, six baselines. *)
Definition t3mat_four_telescopes : ndarray :=
  {| shape := (4, 6);
     buffer := [1; -1; 0; 1; 0; 0;
                1; 0; -1; 0; 1; 0;
                0; 1; -1; 0; 0; 1;
                0; 0; 0; 1; -1; 1]%Q |}.

(** Uncertainties of one exposure: three baselines, two wavelengths. *)
Definition dvis2_3x2 : ndarray :=
  {| shape := (3, 2); buffer := [1 # 10; 2 # 10; 3 # 10; 4 # 10; 5 # 10; 6 # 10]%Q |}.

(** Uncertainties of one exposure: one triangle, two wavelengths. *)
Definition dt3_1x2 : ndarray :=
  {| shape := (1, 2); buffer := [1 # 10; 2 # 10]%Q |}.

(** Uncertainties of one exposure: two triangles, one wavelength. *)
Definition dt3_2x1 : ndarray :=
  {| shape := (2, 1); buffer := [1; 1]%Q |}.

(** Uncertainties of one exposure: one baseline, three wavelengths. *)
Definition derr_1x3 : ndarray :=
  {| shape := (1, 3); buffer := [1 # 10; 2 # 10; 3 # 10]%Q |}.

(** Uncertainties with a single entry. *)
Definition derr_1x1 : ndarray :=
  {| shape := (1, 1); buffer := [2]%Q |}.

(** A symmetric base correlation on three baselines. *)
Definition cbase_sym3 : ndarray :=
  {| shape := (3, 3);
     buffer := [1; 1 # 2; 0;
                1 # 2; 1; 1 # 4;
                0; 1 # 4; 1]%Q |}.

(** A method leaves the fields of the object as they are. *)
Definition preserves_self {A : Type} (m : M A) : Prop :=
  forall s, self (snd (m s)) = self s.

(** The state after [self.idir = d]. *)
Definition redirect (d : string) (s : state) : state := snd (set_idir d s).

(** A session: one file of one instrument, holding a primary extension and
    two exposures of one triangle at two wavelengths. *)
Definition exposure_a : exposure :=
  {| wave := [1 # 1000; 2 # 1000]%Q;
     vis2 := {| shape := (3, 2); buffer := [1; 1; 1; 1; 1; 1]%Q |};
     dvis2 := dvis2_3x2;
     t3mat := t3mat_one_triangle;
     dt3 := dt3_1x2 |}.

Definition exposure_b : exposure :=
  {| wave := [1 # 1000; 2 # 1000]%Q;
     vis2 := {| shape := (3, 2); buffer := [1; 1; 1; 1; 1; 1]%Q |};
     dvis2 := {| shape := (3, 2); buffer := [1; 2; 3; 4; 5; 6]%Q |};
     t3mat := t3mat_one_triangle;
     dt3 := {| shape := (1, 2); buffer := [3; 4]%Q |} |}.

Definition primary_hdu : hdu :=
  {| extname := "PRIMARY"; insname := "NIRISS"; image := [] |}.

Definition session : state :=
  {| self := {| idir := "in/";
                fitsfiles := ["a.fits"];
                inst_list := ["NIRISS"];
                data_list := [[exposure_a; exposure_b]];
                inst := "NIRISS";
                observables := ["vis2"; "t3"] |};
     fs := {| dirs := {[ "in/" ]};
              files := {[ "in/a.fits" := [primary_hdu] ]};
              resolve := fun p => p;
              faults := [] |} |}.

(** The same session with closure-phase uncertainties of the wrong size in
    its only file: three values for one triangle at two wavelengths. *)
Definition session_bad_dt3 : state :=
  {| self := {| idir := "in/";
                fitsfiles := ["a.fits"];
                inst_list := ["NIRISS"];
                data_list := [[ {| wave := wave exposure_a;
                                   vis2 := vis2 exposure_a;
                                   dvis2 := dvis2 exposure_a;
                                   t3mat := t3mat exposure_a;
                                   dt3 := derr_1x3 |} ]];
                inst := "NIRISS";
                observables := ["vis2"; "t3"] |};
     fs := fs session |}.

(** ** Selection of the instrument and of the observables

    The dictionaries of the loader are seen through the record [exposure];
    their key sets are seen through [keys], the parameter of
    [get_observables] and of the methods that call it. *)

(** Line 17. *)
Definition observables_known : list string := ["vis"; "vis2"; "t3"; "kp"].

(** [self.inst = i] *)
Definition assign_inst (i : string) : M unit := fun s =>
  (Ok tt,
   {| self := {| idir := idir (self s);
                 fitsfiles := fitsfiles (self s);
                 inst_list := inst_list (self s);
                 data_list := data_list (self s);
                 inst := i;
                 observables := observables (self s) |};
      fs := fs s |}).

(** [self.observables = obs] *)
Definition assign_observables (obs : list string) : M unit := fun s =>
  (Ok tt,
   {| self := {| idir := idir (self s);
                 fitsfiles := fitsfiles (self s);
                 inst_list := inst_list (self s);
                 data_list := data_list (self s);
                 inst := inst (self s);
                 observables := obs |};
      fs := fs s |}).

(** [self.inst_list += il; self.data_list += dl] (lines 47-48). *)
Definition extend_lists (il : list string) (dl : list (list exposure)) : M unit :=
  fun s =>
  (Ok tt,
   {| self := {| idir := idir (self s);
                 fitsfiles := fitsfiles (self s);
                 inst_list := inst_list (self s) ++ il;
                 data_list := data_list (self s) ++ dl;
                 inst := inst (self s);
                 observables := observables (self s) |};
      fs := fs s |}).

(** Method [get_inst]. *)
Definition get_inst : M (list string) :=
  me ← get_self;
  mret (inst_list me).

(** Method [set_inst]. *)
Definition set_inst (i : string) : M unit :=
  me ← get_self;
  if bool_decide (i ∈ inst_list me) then assign_inst i
  else raise UserWarning.

(** The [while] loop of lines 96-99 for one observable, walking the indices
    [ww[j]], [j = 0, 1, ...]: it stops at the first file whose first exposure
    lacks the key. *)
Fixpoint observable_scan (keys : exposure -> list string) (key : string)
    (dl : list (list exposure)) (ww : list nat) (flag : bool) : result bool :=
  match ww with
  | [] => Ok flag
  | w :: ww' =>
      if flag then
        d ← list_getitem dl w;
        e0 ← list_getitem d 0;
        observable_scan keys key dl ww'
          (if negb (bool_decide (key ∈ keys e0)) then false else flag)
      else Ok flag
  end.

(** Method [get_observables]. *)
Definition get_observables (keys : exposure -> list string) : M (list string) :=
  me ← get_self;
  let ww := np_where_eq (inst_list me) (inst me) 0 in
  lift (for_each (range (length observables_known))
          (fun i observables =>
             key ← list_getitem observables_known i;
             flag ← observable_scan keys key (data_list me) ww true;
             Ok (if (flag : bool) then observables ++ [key] else observables))
          []).

(** Method [set_observables]. *)
Definition set_observables (keys : exposure -> list string)
    (observables : list string) : M unit :=
  observables_valid ← get_observables keys;
  _ ← lift (for_each (range (length observables))
              (fun i (_ : unit) =>
                 o ← list_getitem observables i;
                 if negb (bool_decide (o ∈ observables_valid))
                 then Raise UserWarning else Ok tt)
              tt);
  assign_observables observables.

(** [inst.open(idir=idir, fitsfile=f, verbose=False)]: a function of the
    module [inst], a parameter of [init].  It sees the file system and not
    the object, and returns the instruments found in the file and, for each,
    the list of its exposures. *)
Definition loader : Type :=
  string -> string -> world -> result (list string * list (list exposure)) * world.

Definition call_loader (inst_open : loader) (d f : string)
    : M (list string * list (list exposure)) :=
  fun s =>
    let (r, w) := inst_open d f (fs s) in
    (r, {| self := self s; fs := w |}).

(** Lines 44-48: open one file and extend the two lists. *)
Definition load_file (inst_open : loader) (idir0 : string) (i : nat) : M unit :=
  me ← get_self;
  f ← lift (list_getitem (fitsfiles me) i);
  r ← call_loader inst_open idir0 f;
  extend_lists (fst r) (snd r).

(** The object after lines 38-42: [idir], [fitsfiles], [inst_list] and
    [data_list] have been assigned; [inst] and [observables], assigned by the
    calls of lines 50-51, are still empty. *)
Definition fresh (idir0 : string) (fitsfiles0 : list string) (w : world) : state :=
  {| self := {| idir := idir0;
                fitsfiles := fitsfiles0;
                inst_list := [];
                data_list := [];
                inst := "";
                observables := [] |};
     fs := w |}.

(** Method [__init__]. *)
Definition init (inst_open : loader) (keys : exposure -> list string)
    (idir0 : string) (fitsfiles0 : list string) (w : world) : result unit * state :=
  (me ← get_self;
   _ ← for_eachM (range (length (fitsfiles me))) (load_file inst_open idir0);
   me' ← get_self;
   first ← lift (list_getitem (inst_list me') 0);
   _ ← set_inst first;
   obs ← get_observables keys;
   set_observables keys obs)
    (fresh idir0 fitsfiles0 w).

(** ** Vocabulary of the statements about the methods *)

(** The selected instrument is one of the instruments that were opened. *)
Definition inst_selected (s : state) : Prop :=
  inst (self s) ∈ inst_list (self s).

(** The entries of [dl] at the positions where [il] holds [x]. *)
Fixpoint data_of_inst (il : list string) (dl : list (list exposure)) (x : string)
    : list (list exposure) :=
  match il, dl with
  | y :: il', d :: dl' =>
      if String.eqb y x then d :: data_of_inst il' dl' x
      else data_of_inst il' dl' x
  | _, _ => []
  end.

(** The extension a method appends to a file. *)
Definition cov_hdu (name : string) (s : state) (covs : list ndarray) : hdu :=
  {| extname := name; insname := inst (self s); image := covs |}.

(** A loader for the session [session]: it finds the file ["a.fits"] and
    nothing else. *)
Definition session_loader : loader := fun d f w =>
  if String.eqb f "a.fits"
  then (Ok (["NIRISS"], [[exposure_a; exposure_b]]), w)
  else (Raise OSError, w).

Definition session_keys (e : exposure) : list string :=
  ["wave"; "vis2"; "dvis2"; "t3"; "dt3"; "t3mat"].

(** Two closure triangles over disjoint sets of baselines. *)
Definition t3mat_disjoint : ndarray :=
  {| shape := (2, 6);
     buffer := [1; -1; 1; 0; 0; 0;
                0; 0; 0; 1; -1; 1]%Q |}.

(** The exposures of a file whose second exposure has three uncertainties
    where six are expected. *)
Definition exposures_bad_size : list exposure :=
  [exposure_a;
   {| wave := wave exposure_a;
      vis2 := vis2 exposure_a;
      dvis2 := derr_1x3;
      t3mat := t3mat exposure_a;
      dt3 := derr_1x3 |}].

(** The body of the loop over the files in [add_vis2cov] and [add_t3cov]:
    [per_file] computes the covariances of the file, [name] is the name of
    the extension. *)
Definition file_step (per_file : list exposure -> result (list ndarray))
    (name odir : string) (data_list : list (list exposure)) (i : nat) : M unit :=
  exposures ← lift (list_getitem data_list i);
  covs ← lift (per_file exposures);
  append_extension name i covs odir.

(** The canonical name of the file [odir + f]. *)
Definition output_name (odir : string) (s : state) (f : string) : string :=
  resolve (fs s) (odir +:+ f).

(** The canonical name of the file [self.idir + f]. *)
Definition input_name (s : state) (f : string) : string :=
  resolve (fs s) (idir (self s) +:+ f).

(** What the methods need to write their files: the operating system refuses
    no call, the output directory is not the empty path, the directory of
    every output file is there once the output directory is made, the output
    files are distinct, no output file is the input file of another fits
    file, and every input file exists. *)
Definition files_ready (odir : string) (s : state) : Prop :=
  faults (fs s) = []
  /\ odir <> ""
  /\ (forall f, f ∈ fitsfiles (self s) ->
                dir_exists (fs (snd (ensure_dir odir s))) (odir +:+ f) = true)
  /\ NoDup (map (output_name odir s) (fitsfiles (self s)))
  /\ (forall f f', f ∈ fitsfiles (self s) -> f' ∈ fitsfiles (self s) -> f <> f' ->
                   output_name odir s f <> input_name s f')
  /\ (forall f, f ∈ fitsfiles (self s) ->
                exists primary rest,
                  files (fs s) !! input_name s f = Some (primary :: rest)).

(** A method leaves a part of the state as it is, whether it returns or
    raises. *)
Definition keeps {X A : Type} (part : state -> X) (m : M A) : Prop :=
  forall s, part (snd (m s)) = part s.

(** The fields read by the selection of the data: everything but
    [idir] and [observables]. *)
Definition selection_fields (s : state)
    : list string * list string * list (list exposure) * string :=
  (fitsfiles (self s), inst_list (self s), data_list (self s), inst (self s)).

(** The common shape of [add_vis2cov] and [add_t3cov]. *)
Definition add_extension (per_file : list exposure -> result (list ndarray))
    (name odir : string) : M unit :=
  _ ← ensure_dir odir;
  data_list ← selected_data_list;
  me ← get_self;
  for_eachM (range (length (fitsfiles me))) (file_step per_file name odir data_list).

(** The session with a second fits file for which no data was opened. *)
Definition session_two_files : state :=
  {| self := {| idir := "in/";
                fitsfiles := ["a.fits"; "b.fits"];
                inst_list := ["NIRISS"];
                data_list := [[exposure_a; exposure_b]];
                inst := "NIRISS";
                observables := ["vis2"; "t3"] |};
     fs := fs session |}.

(** Every data entry at the positions [ww] starts with an exposure that
    holds [key]. *)
Definition key_in_all (keys : exposure -> list string)
    (dl : list (list exposure)) (ww : list nat) (key : string) : bool :=
  forallb (fun w => match dl !! w with
                    | Some (e0 :: _) => bool_decide (key ∈ keys e0)
                    | _ => false
                    end) ww.

(** Every data entry of the selected instrument has a first exposure. *)
Definition first_exposures_present (s : state) : Prop :=
  forall w, w ∈ np_where_eq (inst_list (self s)) (inst (self s)) 0 ->
            exists e0 rest, data_list (self s) !! w = Some (e0 :: rest).

(** The observables [get_observables] reports in state [s]. *)
Definition available_observables (keys : exposure -> list string) (s : state)
    : list string :=
  List.filter
    (key_in_all keys (data_list (self s))
       (np_where_eq (inst_list (self s)) (inst (self s)) 0))
    observables_known.

(** The fields read by [get_observables]. *)
Definition observable_fields (s : state)
    : list string * list (list exposure) * string :=
  (inst_list (self s), data_list (self s), inst (self s)).

(** A loader returns as many data entries as instruments. *)
Definition loader_aligned (inst_open : loader) : Prop :=
  forall d f w il dl w',
    inst_open d f w = (Ok (il, dl), w') -> length il = length dl.

(** The session on a file system where a leading ["./"] does not change
    the file a path names. *)
Definition strip_dot (p : string) : string :=
  if String.prefix "./" p then String.substring 2 (String.length p - 2) p else p.

Definition session_dotted : state :=
  {| self := self session;
     fs := {| dirs := dirs (fs session);
              files := files (fs session);
              resolve := strip_dot;
              faults := [] |} |}.

(** The session with two files and an operating system that refuses the
    first call. *)
Definition session_refused : state :=
  {| self := self session_two_files;
     fs := {| dirs := dirs (fs session);
              files := files (fs session);
              resolve := fun p => p;
              faults := [true] |} |}.

(** The session with an input file that has an extension of its own behind
    the primary one. *)
Definition session_oifits : state :=
  {| self := self session;
     fs := {| dirs := dirs (fs session);
              files := {[ "in/a.fits" :=
                            [primary_hdu;
                             {| extname := "OI_VIS2"; insname := "NIRISS"; image := [] |}] ]};
              resolve := fun p => p;
              faults := [] |} |}.


(** * Lines 209 and 213 in double precision

    numpy computes in binary64, and the exact model above leaves rounding
    out.  This module repeats the two lines with the binary64 numbers of the
    kernel, rounded to nearest even after every operation as numpy does.

    [np.dot] hands its products to BLAS, which does not fix the order in
    which the products of one entry are added; [order i j] lists the indices
    of the products of entry [(i, j)] in the order of their addition.

    A decimal literal stands for the nearest double, as it does in Python. *)
Set Warnings "-inexact-float".

Module Binary64.

Record ndarray : Type := mk_ndarray {
  shape : nat * nat;
  buffer : list float
}.

Definition nrows (A : ndarray) : nat := fst (shape A).
Definition ncols (A : ndarray) : nat := snd (shape A).

Definition get (A : ndarray) (i j : nat) : float :=
  nth (i * ncols A + j) (buffer A) 0%float.

Definition from_fn (r c : nat) (f : nat -> nat -> float) : ndarray :=
  {| shape := (r, c);
     buffer := flat_map (fun i => map (f i) (seq 0 c)) (seq 0 r) |}.

(** [A / s] for a scalar [s]. *)
Definition div_scalar (A : ndarray) (s : float) : ndarray :=
  {| shape := shape A; buffer := map (fun x => (x / s)%float) (buffer A) |}.

(** [A.T] *)
Definition transpose (A : ndarray) : ndarray :=
  from_fn (ncols A) (nrows A) (fun i j => get A j i).

(** The products [f k], added to [0] in the order of [ks]. *)
Definition sum_in_order (ks : list nat) (f : nat -> float) : float :=
  fold_left (fun acc k => (acc + f k)%float) ks 0%float.

(** [np.dot(A, B)] for two-dimensional arrays. *)
Definition np_dot (order : nat -> nat -> list nat) (A B : ndarray) : result ndarray :=
  if ncols A =? nrows B then
    Ok (from_fn (nrows A) (ncols B)
          (fun i j => sum_in_order (order i j) (fun k => (get A i k * get B k j)%float)))
  else Raise ValueError.

(** [A.flatten()], [v[:, None]] and [v[None, :]] *)
Definition flatten (A : ndarray) : list float := buffer A.
Definition as_column (v : list float) : ndarray :=
  {| shape := (length v, 1); buffer := v |}.
Definition as_row (v : list float) : ndarray :=
  {| shape := (1, length v); buffer := v |}.

Definition bget (A : ndarray) (i j : nat) : float :=
  get A (if nrows A =? 1 then 0 else i) (if ncols A =? 1 then 0 else j).

(** [np.multiply(A, B)], also written [A * B]. *)
Definition np_multiply (A B : ndarray) : result ndarray :=
  match broadcast_dim (nrows A) (nrows B), broadcast_dim (ncols A) (ncols B) with
  | Some r, Some c => Ok (from_fn r c (fun i j => (bget A i j * bget B i j)%float))
  | _, _ => Raise ValueError
  end.

(** Line 209, [np.dot(trafo, np.dot(cbase, trafo.T))/3.] *)
Definition propagate (order_inner order_outer : nat -> nat -> list nat)
    (trafo cbase : ndarray) : result ndarray :=
  inner ← np_dot order_inner cbase (transpose trafo);
  prod ← np_dot order_outer trafo inner;
  Ok (div_scalar prod 3%float).

(** Line 213, [np.multiply(cor, d.flatten()[:, None]*d.flatten()[None, :])] *)
Definition exposure_cov (cor d : ndarray) : result ndarray :=
  outer ← np_multiply (as_column (flatten d)) (as_row (flatten d));
  np_multiply cor outer.

(** A square array whose mirrored entries are the same number. *)
Definition symmetric (A : ndarray) : Prop :=
  nrows A = ncols A
  /\ forall i j, i < nrows A -> j < nrows A -> get A i j = get A j i.

(** Every entry is added up over all of [0 .. n-1], each index once. *)
Definition complete (n : nat) (order : nat -> nat -> list nat) : Prop :=
  forall i j, Permutation (order i j) (seq 0 n).

(** The order of a plain loop. *)
Definition ascending (n : nat) : nat -> nat -> list nat := fun _ _ => seq 0 n.



(** Two triangles over three baselines, the identity base correlation of
    line 209, and an order of addition that is not the same on the two sides
    of the diagonal. *)
Definition trafo_two_triangles : ndarray :=
  {| shape := (2, 3); buffer := [1; 0.1; -1; -1; -1; -1]%float |}.

Definition identity_3 : ndarray :=
  {| shape := (3, 3); buffer := [1; 0; 0; 0; 1; 0; 0; 0; 1]%float |}.

Definition order_by_side (i j : nat) : list nat :=
  if i <? j then [0; 1; 2] else [2; 0; 1].



End Binary64.
(** * Properties *)

(** ** Arrays built entry by entry *)

Lemma length_from_fn_buffer r c f : length (buffer (from_fn r c f)) = r * c.
Proof.
  unfold from_fn; simpl.
  generalize 0 at 2. induction r as [|r IH]; intros s; simpl; [reflexivity|].
  rewrite length_app, length_map, length_seq, IH. reflexivity.
Qed.

Lemma wf_from_fn r c f : wf_ndarray (from_fn r c f).
Proof. unfold wf_ndarray. rewrite length_from_fn_buffer. reflexivity. Qed.

Lemma nth_flat_rows (f : nat -> nat -> Q) c r s i j :
  i < r -> j < c ->
  nth (i * c + j) (flat_map (fun i => map (f i) (seq 0 c)) (seq s r)) 0%Q
  = f (s + i) j.
Proof.
  revert s i. induction r as [|r IH]; intros s i Hi Hj; [lia|].
  simpl. destruct i as [|i].
  - rewrite app_nth1 by (rewrite length_map, length_seq; lia).
    simpl. rewrite (nth_indep _ 0%Q (f s 0)) by (rewrite length_map, length_seq; lia).
    rewrite map_nth, seq_nth by lia. f_equal; lia.
  - rewrite app_nth2 by (rewrite length_map, length_seq; lia).
    rewrite length_map, length_seq.
    replace (S i * c + j - c) with (i * c + j) by lia.
    rewrite IH by lia. f_equal; lia.
Qed.

Lemma get_from_fn r c f i j :
  i < r -> j < c -> get (from_fn r c f) i j = f i j.
Proof.
  intros Hi Hj. unfold get, ncols. simpl.
  rewrite nth_flat_rows by assumption. reflexivity.
Qed.

Lemma flat_index_lt r c i j : i < r -> j < c -> i * c + j < r * c.
Proof. intros Hi Hj. nia. Qed.

Lemma get_np_zeros r c i j : i < r -> j < c -> get (np_zeros (r, c)) i j = 0%Q.
Proof.
  intros Hi Hj. unfold get, np_zeros, ncols; simpl.
  apply nth_repeat.
Qed.

Lemma wf_np_zeros sh : wf_ndarray (np_zeros sh).
Proof. unfold wf_ndarray, np_zeros, nrows, ncols. simpl. apply repeat_length. Qed.

Lemma nth_np_ones n i : i < n -> nth i (np_ones n) 0%Q = 1%Q.
Proof.
  intros Hi. unfold np_ones.
  rewrite (nth_indep _ 0%Q 1%Q) by (rewrite repeat_length; lia).
  apply nth_repeat.
Qed.

Lemma shape_identity_cor n : shape (identity_cor n) = (n, n).
Proof. unfold identity_cor, np_diag, np_ones. simpl. rewrite repeat_length. reflexivity. Qed.

Lemma get_identity_cor n i j :
  i < n -> j < n -> get (identity_cor n) i j = delta i j.
Proof.
  intros Hi Hj. unfold identity_cor, np_diag, delta.
  assert (Hlen : length (np_ones n) = n) by apply repeat_length.
  rewrite Hlen, get_from_fn by assumption.
  destruct (i =? j); [apply nth_np_ones; assumption | reflexivity].
Qed.

Lemma get_mul_scalar A s i j :
  wf_ndarray A -> i < nrows A -> j < ncols A ->
  get (mul_scalar A s) i j = (get A i j * s)%Q.
Proof.
  intros Hwf Hi Hj. unfold get, mul_scalar, ncols; simpl.
  assert (Hlt : i * snd (shape A) + j < length (buffer A)).
  { rewrite Hwf. apply flat_index_lt; assumption. }
  etransitivity; [apply nth_indep; rewrite length_map; exact Hlt |].
  apply (map_nth (fun x => (x * s)%Q)).
Qed.

Lemma get_div_scalar A s i j :
  wf_ndarray A -> i < nrows A -> j < ncols A ->
  get (div_scalar A s) i j = (get A i j / s)%Q.
Proof.
  intros Hwf Hi Hj. unfold get, div_scalar, ncols; simpl.
  assert (Hlt : i * snd (shape A) + j < length (buffer A)).
  { rewrite Hwf. apply flat_index_lt; assumption. }
  etransitivity; [apply nth_indep; rewrite length_map; exact Hlt |].
  apply (map_nth (fun x => (x / s)%Q)).
Qed.

Lemma get_transpose A i j :
  i < ncols A -> j < nrows A -> get (transpose A) i j = get A j i.
Proof. intros Hi Hj. unfold transpose. rewrite get_from_fn by assumption. reflexivity. Qed.

(** ** Finite sums *)

Lemma sum_upto_ext n f g :
  (forall k, k < n -> (f k == g k)%Q) -> (sum_upto n f == sum_upto n g)%Q.
Proof.
  induction n as [|n IH]; intros H; simpl; [reflexivity|].
  rewrite IH by (intros k Hk; apply H; lia).
  rewrite (H n) by lia. reflexivity.
Qed.

Lemma sum_upto_zero n f :
  (forall k, k < n -> (f k == 0)%Q) -> (sum_upto n f == 0)%Q.
Proof.
  induction n as [|n IH]; intros H; simpl; [reflexivity|].
  rewrite IH by (intros k Hk; apply H; lia).
  rewrite (H n) by lia. ring.
Qed.

Lemma sum_upto_plus n f g :
  (sum_upto n (fun k => f k + g k) == sum_upto n f + sum_upto n g)%Q.
Proof. induction n as [|n IH]; simpl; [ring | rewrite IH; ring]. Qed.

Lemma sum_upto_scale_l n c f :
  (sum_upto n (fun k => c * f k) == c * sum_upto n f)%Q.
Proof. induction n as [|n IH]; simpl; [ring | rewrite IH; ring]. Qed.

Lemma sum_upto_scale_r n c f :
  (sum_upto n (fun k => f k * c) == sum_upto n f * c)%Q.
Proof. induction n as [|n IH]; simpl; [ring | rewrite IH; ring]. Qed.

(** The order of two nested sums can be exchanged. *)
Lemma sum_upto_swap n m (f : nat -> nat -> Q) :
  (sum_upto n (fun k => sum_upto m (fun l => f k l))
   == sum_upto m (fun l => sum_upto n (fun k => f k l)))%Q.
Proof.
  induction n as [|n IH]; simpl.
  - symmetry. apply sum_upto_zero. intros; reflexivity.
  - rewrite IH. symmetry. apply sum_upto_plus.
Qed.

(** A sum against a Kronecker delta picks one term. *)
Lemma sum_upto_delta_l n a g :
  a < n ->
  (sum_upto n (fun c => delta a c * g c) == g a)%Q.
Proof.
  unfold delta.
  induction n as [|n IH]; intros Ha; [lia|]. simpl.
  destruct (Nat.eq_dec a n) as [->|Hne].
  - rewrite Nat.eqb_refl.
    rewrite sum_upto_zero; [ring|].
    intros k Hk. destruct (Nat.eqb_spec n k); [lia | ring].
  - rewrite IH by lia.
    destruct (Nat.eqb_spec a n); [lia | ring].
Qed.

Lemma delta_sym a b : delta a b = delta b a.
Proof. unfold delta. rewrite (Nat.eqb_sym a b). reflexivity. Qed.

Lemma sum_upto_app p q f :
  (sum_upto (p + q) f == sum_upto p f + sum_upto q (fun b => f (p + b)%nat))%Q.
Proof.
  induction q as [|q IH]; simpl.
  - rewrite Nat.add_0_r. ring.
  - rewrite Nat.add_succ_r. simpl. rewrite IH. ring.
Qed.

(** A sum over [n] blocks of width [w]. *)
Lemma sum_upto_blocks n w f :
  (sum_upto (n * w) f
   == sum_upto n (fun l => sum_upto w (fun b => f (l * w + b)%nat)))%Q.
Proof.
  induction n as [|n IH]; simpl; [reflexivity|].
  rewrite Nat.add_comm, sum_upto_app, IH. reflexivity.
Qed.

(** ** Loops *)

Lemma for_each_seq_invariant {S : Type} (P : nat -> S -> Prop)
    (body : nat -> S -> result S) len start acc :
  P start acc ->
  (forall k s, start <= k < start + len -> P k s ->
               exists s', body k s = Ok s' /\ P (Datatypes.S k) s') ->
  exists s', for_each (seq start len) body acc = Ok s' /\ P (start + len) s'.
Proof.
  revert start acc. induction len as [|len IH]; intros start acc H0 Hstep; simpl.
  - exists acc. rewrite Nat.add_0_r. split; [reflexivity | assumption].
  - destruct (Hstep start acc) as [s1 [Hb H1]]; [lia | assumption |].
    rewrite Hb.
    destruct (IH (Datatypes.S start) s1) as [s2 [Hf H2]].
    + assumption.
    + intros k s Hk. apply Hstep. lia.
    + exists s2. split; [assumption|].
      replace (start + Datatypes.S len) with (Datatypes.S start + len) by lia.
      assumption.
Qed.

Lemma for_range_invariant {S : Type} (P : nat -> S -> Prop)
    (body : nat -> S -> result S) n acc :
  P 0 acc ->
  (forall k s, k < n -> P k s -> exists s', body k s = Ok s' /\ P (Datatypes.S k) s') ->
  exists s', for_each (range n) body acc = Ok s' /\ P n s'.
Proof.
  intros H0 Hstep.
  destruct (for_each_seq_invariant P body n 0 acc) as [s' [Hf Hp]].
  - assumption.
  - intros k s Hk. apply Hstep. lia.
  - exists s'. split; assumption.
Qed.

(** ** The transform from baselines to triangles *)

Lemma shape_scaled_identity n c :
  shape (mul_scalar (np_diag (np_ones n)) c) = (n, n).
Proof. apply (shape_identity_cor n). Qed.

Lemma get_scaled_identity n c a b :
  a < n -> b < n ->
  get (mul_scalar (np_diag (np_ones n)) c) a b
  = (delta a b * c)%Q.
Proof.
  intros Ha Hb. unfold delta.
  pose proof (shape_identity_cor n) as Hsh. unfold identity_cor in Hsh.
  rewrite get_mul_scalar.
  - f_equal. apply (get_identity_cor n); assumption.
  - apply wf_from_fn.
  - unfold nrows. rewrite Hsh. exact Ha.
  - unfold ncols. rewrite Hsh. exact Hb.
Qed.

(** Index [(k' * Nwave + a, l' * Nwave + b)] lies in the slice of block
    [(k, l)] exactly when [(k', l') = (k, l)]. *)
Lemma in_block_eqb Nwave k l k' l' a b :
  a < Nwave -> b < Nwave ->
  (k * Nwave <=? k' * Nwave + a) && (k' * Nwave + a <? k * Nwave + Nwave)
  && (l * Nwave <=? l' * Nwave + b) && (l' * Nwave + b <? l * Nwave + Nwave)
  = (k' =? k) && (l' =? l).
Proof.
  intros Ha Hb. apply eq_true_iff_eq.
  rewrite !andb_true_iff, !Nat.leb_le, !Nat.ltb_lt, !Nat.eqb_eq.
  split.
  - intros [[[H1 H2] H3] H4]. split; nia.
  - intros [-> ->]. lia.
Qed.

(** Assigning an [Nwave x Nwave] array to block [(k, l)] changes that block
    and nothing else. *)
Lemma setitem_block T Nwave Ntria Nbase k l B :
  shape T = (Nwave * Ntria, Nwave * Nbase) ->
  k < Ntria -> l < Nbase ->
  shape B = (Nwave, Nwave) ->
  exists T',
    setitem_slice T (k * Nwave) ((k + 1) * Nwave) (l * Nwave) ((l + 1) * Nwave) B
      = Ok T'
    /\ shape T' = (Nwave * Ntria, Nwave * Nbase)
    /\ wf_ndarray T'
    /\ forall k' l' a b,
         k' < Ntria -> l' < Nbase -> a < Nwave -> b < Nwave ->
         get T' (k' * Nwave + a) (l' * Nwave + b)
         = if (k' =? k) && (l' =? l) then get B a b
           else get T (k' * Nwave + a) (l' * Nwave + b).
Proof.
  intros HT Hk Hl HB.
  unfold setitem_slice, nrows, ncols. rewrite HT, HB. simpl fst; simpl snd.
  replace (Nat.min (k * Nwave) (Nwave * Ntria)) with (k * Nwave) by nia.
  replace (Nat.min ((k + 1) * Nwave) (Nwave * Ntria)) with (k * Nwave + Nwave) by nia.
  replace (Nat.min (l * Nwave) (Nwave * Nbase)) with (l * Nwave) by nia.
  replace (Nat.min ((l + 1) * Nwave) (Nwave * Nbase)) with (l * Nwave + Nwave) by nia.
  replace (k * Nwave + Nwave - k * Nwave) with Nwave by lia.
  replace (l * Nwave + Nwave - l * Nwave) with Nwave by lia.
  rewrite Nat.eqb_refl. simpl.
  eexists. split; [reflexivity|]. split; [reflexivity|].
  split; [apply wf_from_fn|].
  intros k' l' a b Hk' Hl' Ha Hb.
  rewrite get_from_fn by nia.
  rewrite (in_block_eqb Nwave k l k' l' a b) by assumption.
  destruct ((k' =? k) && (l' =? l)) eqn:Hin; [|reflexivity].
  apply andb_true_iff in Hin. destruct Hin as [Ek El].
  apply Nat.eqb_eq in Ek. apply Nat.eqb_eq in El. subst k' l'.
  unfold bget, nrows, ncols. rewrite HB. simpl fst; simpl snd.
  replace (k * Nwave + a - k * Nwave) with a by lia.
  replace (l * Nwave + b - l * Nwave) with b by lia.
  destruct (Nat.eqb_spec Nwave 1) as [H1|H1]; [|reflexivity].
  replace a with 0 by lia. replace b with 0 by lia. reflexivity.
Qed.

Lemma block_done_row_end k n k' l' :
  l' < n -> block_done k n k' l' = block_done (S k) 0 k' l'.
Proof.
  intros Hl. unfold block_done.
  replace (l' <? n) with true by (symmetry; apply Nat.ltb_lt; exact Hl).
  replace (l' <? 0) with false by (symmetry; apply Nat.ltb_ge; lia).
  rewrite andb_true_r, andb_false_r, orb_false_r.
  apply eq_true_iff_eq.
  rewrite orb_true_iff, !Nat.ltb_lt, Nat.eqb_eq. lia.
Qed.

Lemma block_done_step k l k' l' :
  block_done k (S l) k' l'
  = if (k' =? k) && (l' =? l) then true else block_done k l k' l'.
Proof.
  unfold block_done.
  destruct (Nat.eqb_spec k' k) as [->|Hk]; simpl.
  - destruct (Nat.eqb_spec l' l) as [->|Hl].
    + replace (l <? S l) with true by (symmetry; apply Nat.ltb_lt; lia).
      apply orb_true_r.
    + f_equal. apply eq_true_iff_eq. rewrite !Nat.ltb_lt. lia.
  - reflexivity.
Qed.

Lemma trafo_inv_init Nwave t3mat :
  trafo_inv Nwave t3mat 0 0
    (np_zeros (Nwave * nrows t3mat, Nwave * ncols t3mat)).
Proof.
  split; [reflexivity|]. split; [apply wf_np_zeros|].
  intros k' l' a b Hk Hl Ha Hb.
  rewrite get_np_zeros by nia.
  unfold block_done. destruct k'; reflexivity.
Qed.

(** One iteration of the inner loop (line 207). *)
Lemma trafo_inv_step Nwave t3mat k l T :
  k < nrows t3mat -> l < ncols t3mat ->
  trafo_inv Nwave t3mat k l T ->
  exists T',
    (c ← getitem t3mat k l;
     setitem_slice T (k * Nwave) ((k + 1) * Nwave) (l * Nwave) ((l + 1) * Nwave)
       (mul_scalar (np_diag (np_ones Nwave)) c)) = Ok T'
    /\ trafo_inv Nwave t3mat k (S l) T'.
Proof.
  intros Hk Hl [Hsh [_ Hent]].
  unfold getitem.
  replace (k <? nrows t3mat) with true by (symmetry; apply Nat.ltb_lt; exact Hk).
  replace (l <? ncols t3mat) with true by (symmetry; apply Nat.ltb_lt; exact Hl).
  simpl.
  destruct (setitem_block T Nwave (nrows t3mat) (ncols t3mat) k l
              (mul_scalar (np_diag (np_ones Nwave)) (get t3mat k l)))
    as [T' [Hset [Hsh' [Hwf' Hent']]]]; try assumption.
  { apply shape_scaled_identity. }
  exists T'. split; [exact Hset|]. split; [exact Hsh'|]. split; [exact Hwf'|].
  intros k' l' a b Hk' Hl' Ha Hb.
  rewrite Hent' by assumption. rewrite block_done_step.
  destruct ((k' =? k) && (l' =? l)) eqn:Hin.
  - apply andb_true_iff in Hin. destruct Hin as [Ek El].
    apply Nat.eqb_eq in Ek. apply Nat.eqb_eq in El. subst k' l'.
    apply get_scaled_identity; assumption.
  - apply Hent; assumption.
Qed.

(** The inner loop over the baselines, for one triangle (lines 206-207). *)
Lemma trafo_inv_row Nwave t3mat k T :
  k < nrows t3mat ->
  trafo_inv Nwave t3mat k 0 T ->
  exists T',
    for_each (range (ncols t3mat))
      (fun l trafo =>
         c ← getitem t3mat k l;
         setitem_slice trafo (k * Nwave) ((k + 1) * Nwave)
                             (l * Nwave) ((l + 1) * Nwave)
           (mul_scalar (np_diag (np_ones Nwave)) c)) T = Ok T'
    /\ trafo_inv Nwave t3mat (S k) 0 T'.
Proof.
  intros Hk Hinv.
  destruct (for_range_invariant (fun l T => trafo_inv Nwave t3mat k l T)
              (fun l trafo =>
                 c ← getitem t3mat k l;
                 setitem_slice trafo (k * Nwave) ((k + 1) * Nwave)
                                     (l * Nwave) ((l + 1) * Nwave)
                   (mul_scalar (np_diag (np_ones Nwave)) c))
              (ncols t3mat) T) as [T' [Hloop [Hsh [Hwf Hent]]]].
  - exact Hinv.
  - intros l s Hl Hs. apply trafo_inv_step; assumption.
  - exists T'. split; [exact Hloop|]. split; [exact Hsh|]. split; [exact Hwf|].
    intros k' l' a b Hk' Hl' Ha Hb.
    rewrite Hent by assumption.
    rewrite (block_done_row_end k (ncols t3mat)) by assumption. reflexivity.
Qed.

(** [build_trafo] returns, and its result is the Kronecker product of the
    incidence matrix with the identity. *)
Lemma build_trafo_spec Nwave t3mat :
  exists T,
    build_trafo Nwave t3mat = Ok T
    /\ shape T = (Nwave * nrows t3mat, Nwave * ncols t3mat)
    /\ wf_ndarray T
    /\ forall k l a b,
         k < nrows t3mat -> l < ncols t3mat -> a < Nwave -> b < Nwave ->
         get T (k * Nwave + a) (l * Nwave + b) = (delta a b * get t3mat k l)%Q.
Proof.
  unfold build_trafo.
  destruct (for_range_invariant (fun k T => trafo_inv Nwave t3mat k 0 T)
              (fun k trafo =>
                 for_each (range (ncols t3mat))
                   (fun l trafo =>
                      c ← getitem t3mat k l;
                      setitem_slice trafo (k * Nwave) ((k + 1) * Nwave)
                                          (l * Nwave) ((l + 1) * Nwave)
                        (mul_scalar (np_diag (np_ones Nwave)) c)) trafo)
              (nrows t3mat)
              (np_zeros (Nwave * nrows t3mat, Nwave * ncols t3mat)))
    as [T [Hloop [Hsh [Hwf Hent]]]].
  - apply trafo_inv_init.
  - intros k s Hk Hs. apply trafo_inv_row; assumption.
  - exists T. split; [exact Hloop|]. split; [exact Hsh|]. split; [exact Hwf|].
    intros k l a b Hk Hl Ha Hb.
    rewrite Hent by assumption.
    unfold block_done.
    replace (k <? nrows t3mat) with true by (symmetry; apply Nat.ltb_lt; exact Hk).
    reflexivity.
Qed.

(** ** Propagation of the base correlation (line 209) *)

Lemma shape_np_dot A B M : np_dot A B = Ok M -> shape M = (nrows A, ncols B).
Proof.
  unfold np_dot. destruct (ncols A =? nrows B); [|discriminate].
  intros H; injection H as <-. reflexivity.
Qed.

Lemma np_dot_ok A B :
  ncols A = nrows B ->
  np_dot A B
  = Ok (from_fn (nrows A) (ncols B)
          (fun i j => sum_upto (ncols A) (fun k => (get A i k * get B k j)%Q))).
Proof. intros H. unfold np_dot. rewrite H, Nat.eqb_refl. reflexivity. Qed.

(** [propagate] returns whenever the shapes agree; its entries are the sums
    the two calls of [np.dot] compute, divided by 3. *)
Lemma propagate_entries T Cbase n :
  ncols T = n -> shape Cbase = (n, n) ->
  exists M,
    propagate T Cbase = Ok M
    /\ shape M = (nrows T, nrows T)
    /\ forall i j, i < nrows T -> j < nrows T ->
         get M i j
         = (sum_upto n (fun p => get T i p
              * sum_upto n (fun q => get Cbase p q * get T j q)) / 3)%Q.
Proof.
  intros HT HC.
  assert (HcC : ncols Cbase = nrows (transpose T)).
  { unfold ncols at 1. rewrite HC. symmetry. exact HT. }
  assert (HrC : nrows Cbase = n) by (unfold nrows; rewrite HC; reflexivity).
  assert (HcC' : ncols Cbase = n) by (unfold ncols; rewrite HC; reflexivity).
  unfold propagate.
  rewrite (np_dot_ok Cbase (transpose T) HcC).
  change (mbind ?f (Ok ?a)) with (f a). cbv beta.
  rewrite np_dot_ok by (rewrite HT; symmetry; exact HrC).
  change (mbind ?f (Ok ?a)) with (f a). cbv beta.
  eexists. split; [reflexivity|]. split; [reflexivity|].
  change (ncols (transpose T)) with (nrows T).
  change (nrows (transpose T)) with (ncols T).
  rewrite HcC', HrC, HT.
  intros i j Hi Hj.
  rewrite get_div_scalar; [| apply wf_from_fn | exact Hi | exact Hj].
  rewrite get_from_fn by assumption.
  f_equal. clear Hi.
  assert (Hext : forall m, m <= n ->
            sum_upto m (fun k => (get T i k
              * get (from_fn n (nrows T)
                       (fun i0 j0 => sum_upto n
                          (fun k0 => (get Cbase i0 k0 * get (transpose T) k0 j0)%Q)))
                    k j)%Q)
            = sum_upto m (fun p => (get T i p
                * sum_upto n (fun q => (get Cbase p q * get T j q)%Q))%Q)).
  { induction m as [|m IH]; intros Hm; simpl; [reflexivity|].
    rewrite IH by lia. f_equal. f_equal.
    rewrite get_from_fn by lia.
    assert (Hin : forall m', m' <= n ->
              sum_upto m' (fun k0 => (get Cbase m k0 * get (transpose T) k0 j)%Q)
              = sum_upto m' (fun q => (get Cbase m q * get T j q)%Q)).
    { induction m' as [|m' IH']; intros Hm'; simpl; [reflexivity|].
      rewrite IH' by lia. f_equal. f_equal.
      apply get_transpose; [rewrite HT; lia | exact Hj]. }
    apply Hin. lia. }
  apply Hext. lia.
Qed.

(** The products [T . (C . T^t)], which the program computes, and
    [(T . C) . T^t] agree. *)
Lemma mat_mul_assoc_transpose n (T C : mat) i j :
  (sum_upto n (fun p => T i p * sum_upto n (fun q => C p q * T j q))
   == mat_mul n (mat_mul n T C) (mat_transpose T) i j)%Q.
Proof.
  unfold mat_mul, mat_transpose.
  transitivity (sum_upto n (fun p => sum_upto n (fun q => T i p * C p q * T j q)))%Q.
  - apply sum_upto_ext. intros p _.
    rewrite <- sum_upto_scale_l. apply sum_upto_ext. intros q _. ring.
  - rewrite sum_upto_swap. apply sum_upto_ext. intros q _.
    apply (sum_upto_scale_r n (T j q) (fun k => (T i k * C k q)%Q)).
Qed.

(** Against the identity the inner product of line 209 returns the
    transposed transform unchanged. *)
Lemma sum_identity_row n (g : nat -> Q) p :
  p < n ->
  (sum_upto n (fun q => get (identity_cor n) p q * g q) == g p)%Q.
Proof.
  intros Hp.
  rewrite <- (sum_upto_delta_l n p g Hp).
  apply sum_upto_ext. intros q Hq.
  rewrite get_identity_cor by assumption. reflexivity.
Qed.

(** Entries of the closure-phase correlation: two channels are correlated
    only at equal wavelength, through the baselines their triangles share. *)
Lemma t3_cor_entries Nwave t3mat :
  exists cor,
    t3_cor Nwave t3mat = Ok cor
    /\ shape cor = (Nwave * nrows t3mat, Nwave * nrows t3mat)
    /\ forall k l a b,
         k < nrows t3mat -> l < nrows t3mat -> a < Nwave -> b < Nwave ->
         (get cor (k * Nwave + a) (l * Nwave + b)
          == delta a b
             * sum_upto (ncols t3mat) (fun m => get t3mat k m * get t3mat l m)
             / 3)%Q.
Proof.
  destruct (build_trafo_spec Nwave t3mat) as [T [HT [Hsh [_ Hent]]]].
  assert (HrT : nrows T = Nwave * nrows t3mat) by (unfold nrows at 1; rewrite Hsh; reflexivity).
  assert (HcT : ncols T = Nwave * ncols t3mat) by (unfold ncols at 1; rewrite Hsh; reflexivity).
  destruct (propagate_entries T (identity_cor (Nwave * ncols t3mat))
              (Nwave * ncols t3mat) HcT (shape_identity_cor _))
    as [M [HM [HshM HentM]]].
  exists M. unfold t3_cor. rewrite HT.
  split; [exact HM|]. split; [rewrite HshM, HrT; reflexivity|].
  intros k l a b Hk Hl Ha Hb.
  rewrite HentM by (rewrite HrT; nia).
  apply Qmult_comp; [|reflexivity].
  transitivity (sum_upto (Nwave * ncols t3mat)
                  (fun p => get T (k * Nwave + a) p * get T (l * Nwave + b) p))%Q.
  { apply sum_upto_ext. intros p Hp.
    rewrite (sum_identity_row _ (fun q => get T (l * Nwave + b) q) p Hp).
    reflexivity. }
  rewrite (Nat.mul_comm Nwave (ncols t3mat)), sum_upto_blocks.
  rewrite <- sum_upto_scale_l.
  apply sum_upto_ext. intros m Hm.
  transitivity (sum_upto Nwave
                  (fun c => delta a c
                            * (get t3mat k m * (delta b c * get t3mat l m))))%Q.
  { apply sum_upto_ext. intros c Hc.
    rewrite !Hent by assumption. ring. }
  rewrite (sum_upto_delta_l Nwave a
             (fun c => get t3mat k m * (delta b c * get t3mat l m))%Q Ha).
  rewrite (delta_sym b a). ring.
Qed.

(** ** Covariance of one exposure (lines 155 and 213) *)

Lemma broadcast_dim_col n : broadcast_dim n 1 = Some n.
Proof.
  unfold broadcast_dim. destruct (Nat.eqb_spec n 1) as [->|H]; [reflexivity|].
  reflexivity.
Qed.

Lemma broadcast_dim_row n : broadcast_dim 1 n = Some n.
Proof.
  unfold broadcast_dim. destruct (Nat.eqb_spec 1 n) as [<-|H]; reflexivity.
Qed.

Lemma broadcast_dim_refl n : broadcast_dim n n = Some n.
Proof. unfold broadcast_dim. rewrite Nat.eqb_refl. reflexivity. Qed.

Lemma np_multiply_outer u :
  np_multiply (as_column u) (as_row u) = Ok (outer u).
Proof.
  unfold np_multiply, nrows, ncols. simpl.
  rewrite broadcast_dim_col, broadcast_dim_row. reflexivity.
Qed.

Lemma get_outer u i j :
  i < length u -> j < length u ->
  get (outer u) i j = (nth i u 0 * nth j u 0)%Q.
Proof.
  intros Hi Hj. unfold outer. rewrite get_from_fn by assumption.
  unfold bget, get, nrows, ncols. simpl.
  destruct (Nat.eqb_spec (length u) 1) as [H1|H1].
  - replace i with 0 by lia. replace j with 0 by lia. reflexivity.
  - rewrite Nat.mul_1_r, Nat.add_0_r. reflexivity.
Qed.

(** With matching sizes the covariance is the entrywise product of the
    correlation and the outer product of the uncertainties. *)
Lemma exposure_cov_entries cor d N :
  shape cor = (N, N) -> length (flatten d) = N ->
  exists cov,
    exposure_cov cor d = Ok cov
    /\ shape cov = (N, N)
    /\ forall i j, i < N -> j < N ->
         get cov i j
         = (get cor i j * (nth i (flatten d) 0 * nth j (flatten d) 0))%Q.
Proof.
  intros Hc Hu. unfold exposure_cov. rewrite np_multiply_outer.
  change (mbind ?f (Ok ?a)) with (f a). cbv beta.
  unfold np_multiply, nrows, ncols. rewrite Hc. simpl. rewrite Hu.
  rewrite broadcast_dim_refl.
  eexists. split; [reflexivity|]. split; [reflexivity|].
  intros i j Hi Hj. rewrite get_from_fn by assumption.
  assert (Hb : forall A, shape A = (N, N) -> bget A i j = get A i j).
  { intros A HA. unfold bget, nrows, ncols. rewrite HA. simpl.
    destruct (Nat.eqb_spec N 1) as [H1|H1]; [|reflexivity].
    replace i with 0 by lia. replace j with 0 by lia. reflexivity. }
  rewrite (Hb cor Hc).
  rewrite (Hb (outer (flatten d))) by (unfold outer; simpl; rewrite Hu; reflexivity).
  rewrite get_outer by (rewrite Hu; assumption). reflexivity.
Qed.

(** When the sizes differ, numpy broadcasts if one of them is 1 and refuses
    otherwise. *)
Lemma exposure_cov_raises_iff cor d N :
  shape cor = (N, N) ->
  exposure_cov cor d = Raise ValueError
  <-> (length (flatten d) <> N /\ N <> 1 /\ length (flatten d) <> 1).
Proof.
  intros Hc. unfold exposure_cov. rewrite np_multiply_outer.
  change (mbind ?f (Ok ?a)) with (f a). cbv beta.
  unfold np_multiply, nrows, ncols. rewrite Hc. simpl.
  unfold broadcast_dim.
  destruct (Nat.eqb_spec N (length (flatten d))) as [He|He].
  - split; [discriminate | intros [H _]; congruence].
  - destruct (Nat.eqb_spec N 1) as [H1|H1].
    + split; [discriminate | intros [_ [H _]]; congruence].
    + destruct (Nat.eqb_spec (length (flatten d)) 1) as [H2|H2].
      * split; [discriminate | intros [_ [_ H]]; congruence].
      * split; [intros _; repeat split; congruence | reflexivity].
Qed.

(** ** Three scenarios *)

(** One triangle over three unit baselines: the self-correlation is 1. *)
Example scenario_single_triangle :
  exists cor,
    t3_cor 1 {| shape := (1, 3); buffer := [1; 1; 1]%Q |} = Ok cor
    /\ shape cor = (1, 1) /\ (get cor 0 0 == 1)%Q.
Proof.
  eexists. split; [vm_compute; reflexivity|].
  split; [reflexivity | vm_compute; reflexivity].
Qed.

(** Two rows sharing one baseline: the correlation between them is 1/3. *)
Example scenario_shared_baseline :
  exists cor,
    t3_cor 1 t3mat_shared_baseline = Ok cor
    /\ (get cor 0 1 == 1 # 3)%Q /\ (get cor 1 0 == 1 # 3)%Q.
Proof.
  eexists. split; [vm_compute; reflexivity|].
  split; vm_compute; reflexivity.
Qed.

(** Identity correlation and uncertainties [0.1, 0.2, 0.3, 0.4]: the
    covariance is diagonal with entries [0.01, 0.04, 0.09, 0.16]. *)
Example scenario_identity_covariance :
  exposure_cov (identity_cor 4)
    {| shape := (2, 2); buffer := [1 # 10; 2 # 10; 3 # 10; 4 # 10]%Q |}
  = Ok {| shape := (4, 4);
          buffer := [1 # 100; 0 # 100; 0 # 100; 0 # 100;
                     0 # 100; 4 # 100; 0 # 100; 0 # 100;
                     0 # 100; 0 # 100; 9 # 100; 0 # 100;
                     0 # 100; 0 # 100; 0 # 100; 16 # 100]%Q |}.
Proof. vm_compute. reflexivity. Qed.

(** * The claims *)

(** ** C6: the baseline correlation model *)

(** C6.  For every [n >= 1] the correlation of the baseline observables,
    [np.diag(np.ones(n))], is the [n x n] identity matrix: its entry [(i, j)]
    is 1 when [i = j] and 0 otherwise. *)
Theorem identity_cor_is_identity (n : nat) :
  1 <= n ->
  shape (identity_cor n) = (n, n)
  /\ wf_ndarray (identity_cor n)
  /\ forall i j, i < n -> j < n ->
       get (identity_cor n) i j = if i =? j then 1%Q else 0%Q.
Proof.
  intros _. split; [apply shape_identity_cor|].
  split; [apply wf_from_fn|].
  intros i j Hi Hj. apply get_identity_cor; assumption.
Qed.

Lemma identity_cor_is_identity_witness :
  1 <= 4
  /\ shape (identity_cor 4) = (4, 4)
  /\ wf_ndarray (identity_cor 4)
  /\ forall i j, i < 4 -> j < 4 ->
       get (identity_cor 4) i j = if i =? j then 1%Q else 0%Q.
Proof. split; [lia | apply (identity_cor_is_identity 4); lia]. Defined.

(** ** C3, C4: the transform from baselines to triangles *)

(** C3.  For [Nwave >= 1] and an incidence matrix of shape [(Ntria, Nbase)],
    the transform built by lines 204-207 has shape
    [(Nwave * Ntria, Nwave * Nbase)], and its block [(k, l)] is
    [t3mat[k, l]] times the [Nwave x Nwave] identity: the entry at row
    [k * Nwave + a] and column [l * Nwave + b] is [t3mat[k, l]] when [a = b]
    and zero when [a <> b], so entries that couple two different channels
    are zero. *)
Theorem build_trafo_kronecker (Nwave Ntria Nbase : nat) (t3mat : ndarray) :
  1 <= Nwave ->
  shape t3mat = (Ntria, Nbase) ->
  exists T,
    build_trafo Nwave t3mat = Ok T
    /\ shape T = (Nwave * Ntria, Nwave * Nbase)
    /\ forall k l a b,
         k < Ntria -> l < Nbase -> a < Nwave -> b < Nwave ->
         get T (k * Nwave + a) (l * Nwave + b)
           = ((if (a =? b)%nat then 1 else 0) * get t3mat k l)%Q
         /\ (a = b -> (get T (k * Nwave + a) (l * Nwave + b) == get t3mat k l)%Q)
         /\ (a <> b -> (get T (k * Nwave + a) (l * Nwave + b) == 0)%Q).
Proof.
  intros _ Hsh.
  destruct (build_trafo_spec Nwave t3mat) as [T [HT [HshT [_ Hent]]]].
  assert (Hr : nrows t3mat = Ntria) by (unfold nrows; rewrite Hsh; reflexivity).
  assert (Hc : ncols t3mat = Nbase) by (unfold ncols; rewrite Hsh; reflexivity).
  rewrite Hr, Hc in *.
  exists T. split; [exact HT|]. split; [exact HshT|].
  intros k l a b Hk Hl Ha Hb.
  rewrite Hent by assumption. unfold delta.
  split; [reflexivity|].
  split; intros Hab; destruct (Nat.eqb_spec a b); try contradiction; ring.
Qed.

Lemma build_trafo_kronecker_witness :
  1 <= 2 /\ shape t3mat_four_telescopes = (4, 6)
  /\ exists T,
       build_trafo 2 t3mat_four_telescopes = Ok T
       /\ shape T = (2 * 4, 2 * 6)
       /\ forall k l a b,
            k < 4 -> l < 6 -> a < 2 -> b < 2 ->
            get T (k * 2 + a) (l * 2 + b)
              = ((if (a =? b)%nat then 1 else 0) * get t3mat_four_telescopes k l)%Q
            /\ (a = b ->
                (get T (k * 2 + a) (l * 2 + b) == get t3mat_four_telescopes k l)%Q)
            /\ (a <> b -> (get T (k * 2 + a) (l * 2 + b) == 0)%Q).
Proof.
  split; [lia|]. split; [reflexivity|].
  apply (build_trafo_kronecker 2 4 6 t3mat_four_telescopes); [lia | reflexivity].
Defined.

(** C4, as the code behaves.  Building the transform never fails: for every
    [Nwave] and every incidence matrix, zero sizes included, it returns an
    array of shape [(Nwave * Ntria, Nwave * Nbase)], which has no entries when
    [Nwave], [Ntria] or [Nbase] is zero. *)
Theorem build_trafo_total (Nwave : nat) (t3mat : ndarray) :
  exists T,
    build_trafo Nwave t3mat = Ok T
    /\ shape T = (Nwave * nrows t3mat, Nwave * ncols t3mat)
    /\ (Nwave = 0 \/ nrows t3mat = 0 \/ ncols t3mat = 0 -> buffer T = []).
Proof.
  destruct (build_trafo_spec Nwave t3mat) as [T [HT [HshT [Hwf _]]]].
  exists T. split; [exact HT|]. split; [exact HshT|].
  intros Hz. apply length_zero_iff_nil.
  rewrite Hwf. unfold nrows at 1, ncols at 1. rewrite HshT. simpl. nia.
Qed.

Lemma build_trafo_total_witness :
  exists T,
    build_trafo 0 t3mat_one_triangle = Ok T
    /\ shape T = (0 * nrows t3mat_one_triangle, 0 * ncols t3mat_one_triangle)
    /\ (0 = 0 \/ nrows t3mat_one_triangle = 0 \/ ncols t3mat_one_triangle = 0 ->
        buffer T = []).
Proof. apply (build_trafo_total 0 t3mat_one_triangle). Defined.

(** C4 fails as stated: with [Nwave = 0] the transform is built, and is the
    empty array. *)
Lemma build_trafo_zero_wave_returns :
  build_trafo 0 t3mat_one_triangle = Ok {| shape := (0, 0); buffer := [] |}.
Proof. vm_compute. reflexivity. Qed.

(** ** C2: propagation of the base correlation *)

(** C2.  For a base correlation of size [Nwave * Nbase] and a transform of
    shape [(Nwave * Ntria, Nwave * Nbase)], line 209 returns the matrix
    [(T . C_base . T^t) / norm] with [norm = 3]. *)
Theorem propagate_refines_spec (Nwave Ntria Nbase : nat) (T Cbase : ndarray) :
  shape T = (Nwave * Ntria, Nwave * Nbase) ->
  shape Cbase = (Nwave * Nbase, Nwave * Nbase) ->
  norm = 3%Q
  /\ exists M,
       propagate T Cbase = Ok M
       /\ shape M = (Nwave * Ntria, Nwave * Ntria)
       /\ forall i j, i < Nwave * Ntria -> j < Nwave * Ntria ->
            (get M i j == spec_propagated (Nwave * Nbase) (get T) (get Cbase) i j)%Q.
Proof.
  intros HT HC. split; [reflexivity|].
  assert (Hc : ncols T = Nwave * Nbase) by (unfold ncols; rewrite HT; reflexivity).
  assert (Hr : nrows T = Nwave * Ntria) by (unfold nrows; rewrite HT; reflexivity).
  destruct (propagate_entries T Cbase (Nwave * Nbase) Hc HC) as [M [HM [HshM Hent]]].
  rewrite Hr in *.
  exists M. split; [exact HM|]. split; [exact HshM|].
  intros i j Hi Hj. rewrite Hent by assumption.
  unfold spec_propagated, norm.
  rewrite (mat_mul_assoc_transpose (Nwave * Nbase) (get T) (get Cbase) i j).
  reflexivity.
Qed.

Lemma propagate_refines_spec_witness :
  exists T,
    build_trafo 1 t3mat_one_triangle = Ok T
    /\ norm = 3%Q
    /\ exists M,
         propagate T cbase_sym3 = Ok M
         /\ shape M = (1 * 1, 1 * 1)
         /\ forall i j, i < 1 * 1 -> j < 1 * 1 ->
              (get M i j == spec_propagated (1 * 3) (get T) (get cbase_sym3) i j)%Q.
Proof.
  eexists. split; [vm_compute; reflexivity|].
  apply (propagate_refines_spec 1 1 3); reflexivity.
Defined.

(** ** C9: no correlation across wavelengths *)

(** C9.  In the closure-phase correlation computed from the identity base
    correlation, the entry at row [k * Nwave + a], column [l * Nwave + b] is
    zero whenever [a <> b]; only entries at equal wavelength can be nonzero. *)
Theorem t3_cor_no_cross_wavelength (Nwave : nat) (t3mat : ndarray) :
  exists cor,
    t3_cor Nwave t3mat = Ok cor
    /\ forall k l a b,
         k < nrows t3mat -> l < nrows t3mat -> a < Nwave -> b < Nwave ->
         (a <> b -> (get cor (k * Nwave + a) (l * Nwave + b) == 0)%Q)
         /\ (~ (get cor (k * Nwave + a) (l * Nwave + b) == 0)%Q -> a = b).
Proof.
  destruct (t3_cor_entries Nwave t3mat) as [cor [Hcor [_ Hent]]].
  exists cor. split; [exact Hcor|].
  intros k l a b Hk Hl Ha Hb.
  assert (Hzero : a <> b -> (get cor (k * Nwave + a) (l * Nwave + b) == 0)%Q).
  { intros Hab. rewrite Hent by assumption.
    unfold delta. destruct (Nat.eqb_spec a b); [contradiction|].
    unfold Qdiv. ring. }
  split; [exact Hzero|].
  intros Hnz. destruct (Nat.eq_dec a b) as [E|E]; [exact E|].
  exfalso. apply Hnz, Hzero, E.
Qed.

Lemma t3_cor_no_cross_wavelength_witness :
  exists cor,
    t3_cor 2 t3mat_four_telescopes = Ok cor
    /\ forall k l a b,
         k < nrows t3mat_four_telescopes -> l < nrows t3mat_four_telescopes ->
         a < 2 -> b < 2 ->
         (a <> b -> (get cor (k * 2 + a) (l * 2 + b) == 0)%Q)
         /\ (~ (get cor (k * 2 + a) (l * 2 + b) == 0)%Q -> a = b).
Proof. apply (t3_cor_no_cross_wavelength 2 t3mat_four_telescopes). Defined.

(** ** C1: the diagonal of the covariance *)

(** C1, as the code behaves.  The diagonal of the covariance is the
    diagonal of the correlation times the squared uncertainty.  For the
    baseline observables this is the squared uncertainty.  For the triangle
    observables, at channel [k * Nwave + a] it is the squared uncertainty
    times a third of the sum of the squared coefficients of row [k] of the
    incidence matrix, hence the squared uncertainty where that sum is 3. *)
Theorem covariance_diagonal (Nwave N : nat) (t3mat d_vis2 d_t3 : ndarray) :
  length (flatten d_vis2) = N ->
  length (flatten d_t3) = Nwave * nrows t3mat ->
  (exists cov,
     exposure_cov (identity_cor N) d_vis2 = Ok cov
     /\ forall i, i < N ->
          (get cov i i == nth i (flatten d_vis2) 0 * nth i (flatten d_vis2) 0)%Q)
  /\ (exists cor cov,
        t3_cor Nwave t3mat = Ok cor
        /\ exposure_cov cor d_t3 = Ok cov
        /\ forall k a, k < nrows t3mat -> a < Nwave ->
             let i := k * Nwave + a in
             let u := nth i (flatten d_t3) 0%Q in
             let s := sum_upto (ncols t3mat)
                        (fun m => (get t3mat k m * get t3mat k m)%Q) in
             (get cov i i == s / 3 * (u * u))%Q
             /\ ((s == 3)%Q -> (get cov i i == u * u)%Q)).
Proof.
  intros Hvis Ht3. split.
  - destruct (exposure_cov_entries (identity_cor N) d_vis2 N
                (shape_identity_cor N) Hvis) as [cov [Hcov [_ Hent]]].
    exists cov. split; [exact Hcov|].
    intros i Hi. rewrite Hent, get_identity_cor by assumption.
    unfold delta. rewrite Nat.eqb_refl. ring.
  - destruct (t3_cor_entries Nwave t3mat) as [cor [Hcor [Hsh HentC]]].
    destruct (exposure_cov_entries cor d_t3 (Nwave * nrows t3mat) Hsh Ht3)
      as [cov [Hcov [_ Hent]]].
    exists cor, cov. split; [exact Hcor|]. split; [exact Hcov|].
    intros k a Hk Ha i u s.
    assert (Hi : i < Nwave * nrows t3mat) by (unfold i; nia).
    assert (Hdiag : (get cov i i == s / 3 * (u * u))%Q).
    { rewrite Hent by assumption. unfold i at 1 2.
      rewrite HentC by assumption.
      unfold delta. rewrite Nat.eqb_refl. fold s. fold i. fold u.
      unfold Qdiv. ring. }
    split; [exact Hdiag|].
    intros Hs. rewrite Hdiag, Hs. field.
Qed.

Lemma covariance_diagonal_witness :
  length (flatten dvis2_3x2) = 6
  /\ length (flatten dt3_1x2) = 2 * nrows t3mat_one_triangle
  /\ (exists cov,
        exposure_cov (identity_cor 6) dvis2_3x2 = Ok cov
        /\ forall i, i < 6 ->
             (get cov i i == nth i (flatten dvis2_3x2) 0 * nth i (flatten dvis2_3x2) 0)%Q)
  /\ (exists cor cov,
        t3_cor 2 t3mat_one_triangle = Ok cor
        /\ exposure_cov cor dt3_1x2 = Ok cov
        /\ forall k a, k < nrows t3mat_one_triangle -> a < 2 ->
             let i := k * 2 + a in
             let u := nth i (flatten dt3_1x2) 0%Q in
             let s := sum_upto (ncols t3mat_one_triangle)
                        (fun m => (get t3mat_one_triangle k m
                                   * get t3mat_one_triangle k m)%Q) in
             (get cov i i == s / 3 * (u * u))%Q
             /\ ((s == 3)%Q -> (get cov i i == u * u)%Q)).
Proof.
  split; [reflexivity|]. split; [reflexivity|].
  apply (covariance_diagonal 2 6 t3mat_one_triangle dvis2_3x2 dt3_1x2); reflexivity.
Defined.

(** C1 fails as stated for the triangle observables: for two rows that share
    a baseline, the second with two nonzero coefficients, and unit
    uncertainties, entry [(1, 1)] of the covariance is 2/3 and not 1. *)
Lemma covariance_diagonal_not_variance :
  exists cor cov,
    t3_cor 1 t3mat_shared_baseline = Ok cor
    /\ length (flatten dt3_2x1) = 1 * nrows t3mat_shared_baseline
    /\ exposure_cov cor dt3_2x1 = Ok cov
    /\ (get cov 1 1 == 2 # 3)%Q
    /\ ~ (get cov 1 1 == nth 1 (flatten dt3_2x1) 0 * nth 1 (flatten dt3_2x1) 0)%Q.
Proof.
  eexists. eexists.
  split; [vm_compute; reflexivity|].
  split; [reflexivity|].
  split; [vm_compute; reflexivity|].
  split; [vm_compute; reflexivity|].
  vm_compute. discriminate.
Qed.

(** ** C5: sizes that do not match *)

(** C5, as the code behaves.  When the flattened uncertainties have a length
    different from the size [N] of the correlation, the product raises
    numpy's [ValueError] if neither the length nor [N] is 1; if one of them is
    1, numpy broadcasts and a covariance of the other size is returned. *)
Theorem exposure_cov_size_mismatch (cor d : ndarray) (N : nat) :
  shape cor = (N, N) ->
  length (flatten d) <> N ->
  (N <> 1 /\ length (flatten d) <> 1 -> exposure_cov cor d = Raise ValueError)
  /\ (N = 1 ->
      exists cov,
        exposure_cov cor d = Ok cov
        /\ shape cov = (length (flatten d), length (flatten d)))
  /\ (length (flatten d) = 1 ->
      exists cov, exposure_cov cor d = Ok cov /\ shape cov = (N, N)).
Proof.
  intros Hc Hne. split; [|split].
  - intros [HN Hu]. apply (exposure_cov_raises_iff cor d N Hc). auto.
  - intros H1. unfold exposure_cov. rewrite np_multiply_outer.
    change (mbind ?f (Ok ?a)) with (f a). cbv beta.
    unfold np_multiply, nrows, ncols. rewrite Hc. simpl.
    unfold broadcast_dim.
    destruct (Nat.eqb_spec N (length (flatten d))) as [He|He]; [congruence|].
    destruct (Nat.eqb_spec N 1) as [_|H1']; [|contradiction].
    eexists. split; reflexivity.
  - intros H2. unfold exposure_cov. rewrite np_multiply_outer.
    change (mbind ?f (Ok ?a)) with (f a). cbv beta.
    unfold np_multiply, nrows, ncols. rewrite Hc. simpl.
    unfold broadcast_dim.
    destruct (Nat.eqb_spec N (length (flatten d))) as [He|He]; [congruence|].
    destruct (Nat.eqb_spec N 1) as [H1|H1]; [congruence|].
    destruct (Nat.eqb_spec (length (flatten d)) 1) as [_|H2']; [|contradiction].
    eexists. split; reflexivity.
Qed.

Lemma exposure_cov_size_mismatch_witness :
  shape (identity_cor 4) = (4, 4)
  /\ length (flatten derr_1x3) <> 4
  /\ (4 <> 1 /\ length (flatten derr_1x3) <> 1 ->
      exposure_cov (identity_cor 4) derr_1x3 = Raise ValueError)
  /\ (4 = 1 ->
      exists cov,
        exposure_cov (identity_cor 4) derr_1x3 = Ok cov
        /\ shape cov = (length (flatten derr_1x3), length (flatten derr_1x3)))
  /\ (length (flatten derr_1x3) = 1 ->
      exists cov,
        exposure_cov (identity_cor 4) derr_1x3 = Ok cov /\ shape cov = (4, 4)).
Proof.
  split; [reflexivity|]. split; [simpl; lia|].
  apply (exposure_cov_size_mismatch (identity_cor 4) derr_1x3 4); [reflexivity | simpl; lia].
Defined.

(** C5 fails as stated: a correlation of size 4 and a single uncertainty
    have different sizes, and the covariance is computed by broadcasting. *)
Lemma exposure_cov_broadcasts :
  shape (identity_cor 4) = (4, 4)
  /\ length (flatten derr_1x1) <> 4
  /\ exists cov,
       exposure_cov (identity_cor 4) derr_1x1 = Ok cov
       /\ shape cov = (4, 4)
       /\ (get cov 0 0 == 4)%Q.
Proof.
  split; [reflexivity|]. split; [simpl; lia|].
  eexists. split; [vm_compute; reflexivity|].
  split; [reflexivity|]. vm_compute. reflexivity.
Qed.

(** ** C8: symmetry *)

Lemma propagate_symmetric T Cbase n :
  ncols T = n -> shape Cbase = (n, n) -> symmetric Cbase ->
  exists M, propagate T Cbase = Ok M /\ symmetric M.
Proof.
  intros HT HC [_ Hsym].
  assert (HrC : nrows Cbase = n) by (unfold nrows; rewrite HC; reflexivity).
  rewrite HrC in Hsym.
  destruct (propagate_entries T Cbase n HT HC) as [M [HM [HshM Hent]]].
  exists M. split; [exact HM|].
  assert (Hr : nrows M = nrows T) by (unfold nrows at 1; rewrite HshM; reflexivity).
  split; [unfold nrows, ncols; rewrite HshM; reflexivity|].
  rewrite Hr. intros i j Hi Hj.
  rewrite !Hent by assumption.
  apply Qmult_comp; [|reflexivity].
  rewrite (mat_mul_assoc_transpose n (get T) (get Cbase) j i).
  unfold mat_mul, mat_transpose.
  apply sum_upto_ext. intros p Hp.
  rewrite (Qmult_comm (get T i p)).
  apply Qmult_comp; [|reflexivity].
  apply sum_upto_ext. intros q Hq.
  rewrite (Hsym p q) by assumption. ring.
Qed.

Lemma exposure_cov_symmetric cor d N :
  shape cor = (N, N) -> length (flatten d) = N -> symmetric cor ->
  exists cov, exposure_cov cor d = Ok cov /\ symmetric cov.
Proof.
  intros Hc Hu [_ Hsym].
  assert (HrC : nrows cor = N) by (unfold nrows; rewrite Hc; reflexivity).
  rewrite HrC in Hsym.
  destruct (exposure_cov_entries cor d N Hc Hu) as [cov [Hcov [Hsh Hent]]].
  exists cov. split; [exact Hcov|].
  split; [unfold nrows, ncols; rewrite Hsh; reflexivity|].
  assert (Hr : nrows cov = N) by (unfold nrows; rewrite Hsh; reflexivity).
  rewrite Hr. intros i j Hi Hj.
  rewrite !Hent by assumption. rewrite (Hsym i j) by assumption. ring.
Qed.

Lemma identity_cor_symmetric n : symmetric (identity_cor n).
Proof.
  assert (Hr : nrows (identity_cor n) = n)
    by (unfold nrows; rewrite shape_identity_cor; reflexivity).
  split; [unfold nrows, ncols; rewrite shape_identity_cor; reflexivity|].
  rewrite Hr. intros i j Hi Hj.
  rewrite !get_identity_cor by assumption. rewrite delta_sym. reflexivity.
Qed.


(** *** Double precision *)














(** With the identity for base correlation, as in line 209, the two
    mirrored entries add the same products, and differ when they add them in
    different orders: [(-1 + -0.1) + 1] on one side and [(1 + -1) + -0.1] on
    the other. *)
Example propagate_float_identity_base :
  Binary64.complete 3 Binary64.order_by_side
  /\ exists M,
       Binary64.propagate (Binary64.ascending 3) Binary64.order_by_side
         Binary64.trafo_two_triangles Binary64.identity_3 = Ok M
       /\ Binary64.get M 0 1 = (-0.03333333333333336)%float
       /\ Binary64.get M 1 0 = (-0.03333333333333333)%float
       /\ (Binary64.get M 0 1 <? Binary64.get M 1 0)%float = true.
Proof.
  split.
  - intros i j. unfold Binary64.order_by_side.
    destruct (i <? j); [reflexivity|].
    simpl. apply (Permutation_cons_append [0; 1] 2).
  - eexists. split; [vm_compute; reflexivity|].
    repeat split; vm_compute; reflexivity.
Qed.



(** ** C7: the covariances of one file *)

(** State of [covs] after [j] iterations of the loop over the exposures: one
    covariance per exposure seen, in the order of the exposures. *)
Lemma exposure_loop_spec (get_err : exposure -> ndarray) cor exposures N :
  shape cor = (N, N) ->
  Forall (fun e => length (flatten (get_err e)) = N) exposures ->
  exists covs,
    exposure_loop get_err cor exposures = Ok covs
    /\ length covs = length exposures
    /\ Forall (fun c => shape c = (N, N)) covs
    /\ forall j e, exposures !! j = Some e ->
         exists cov, covs !! j = Some cov
                     /\ exposure_cov cor (get_err e) = Ok cov.
Proof.
  intros Hc Hall. unfold exposure_loop.
  destruct (for_range_invariant
              (fun j (covs : list ndarray) =>
                 length covs = j
                 /\ Forall (fun c => shape c = (N, N)) covs
                 /\ forall i e, i < j -> exposures !! i = Some e ->
                      exists cov, covs !! i = Some cov
                                  /\ exposure_cov cor (get_err e) = Ok cov)
              (fun j covs =>
                 e ← list_getitem exposures j;
                 cov ← exposure_cov cor (get_err e);
                 Ok (covs ++ [cov]))
              (length exposures) []) as [covs [Hloop [Hlen [Hsh Hent]]]].
  - split; [reflexivity|]. split; [constructor|]. intros i e Hi. lia.
  - intros j covs Hj [Hlen [Hsh Hent]].
    destruct (lookup_lt_is_Some_2 exposures j Hj) as [e He].
    unfold list_getitem. rewrite He.
    change (mbind ?f (Ok ?a)) with (f a). cbv beta.
    assert (Hu : length (flatten (get_err e)) = N).
    { rewrite Forall_forall in Hall. apply Hall.
      eapply list_elem_of_lookup_2. exact He. }
    destruct (exposure_cov_entries cor (get_err e) N Hc Hu) as [cov [Hcov [Hshc _]]].
    rewrite Hcov. change (mbind ?f (Ok ?a)) with (f a). cbv beta.
    eexists. split; [reflexivity|].
    split; [rewrite length_app; simpl; lia|].
    split; [apply Forall_app; split; [exact Hsh | constructor; [exact Hshc | constructor]]|].
    intros i e' Hi He'.
    destruct (Nat.eq_dec i j) as [->|Hne].
    + exists cov. split.
      * rewrite lookup_app_r by lia. rewrite Hlen, Nat.sub_diag. reflexivity.
      * congruence.
    + destruct (Hent i e') as [c [Hci Hce]]; [lia | exact He' |].
      exists c. split; [|exact Hce].
      rewrite lookup_app_l by (rewrite Hlen; lia). exact Hci.
  - exists covs. split; [exact Hloop|]. split; [exact Hlen|]. split; [exact Hsh|].
    intros j e He. apply Hent; [|exact He].
    apply lookup_lt_Some in He. exact He.
Qed.

Lemma np_array_same_shape covs N :
  Forall (fun c => shape c = (N, N)) covs -> np_array covs = Ok covs.
Proof.
  intros Hall. unfold np_array. destruct covs as [|c covs']; [reflexivity|].
  assert (Hc : shape c = (N, N)) by (inversion Hall; assumption).
  replace (forallb (fun c' => (nrows c' =? nrows c) && (ncols c' =? ncols c)) (c :: covs'))
    with true; [reflexivity|].
  symmetry. apply forallb_forall. intros c' Hin.
  rewrite Forall_forall in Hall.
  apply list_elem_of_In in Hin. specialize (Hall c' Hin).
  unfold nrows, ncols. rewrite Hall, Hc. simpl. rewrite Nat.eqb_refl. reflexivity.
Qed.

(** The [j]-th covariance of the loop is built from the [j]-th exposure
    and from the correlation bound before the loop: its entry [(i, k)] is
    [cor[i, k] * (u[i] * u[k])], with [u] the uncertainties of that exposure,
    flattened. *)
Lemma exposure_loop_entries (get_err : exposure -> ndarray) cor exposures N :
  shape cor = (N, N) ->
  Forall (fun e => length (flatten (get_err e)) = N) exposures ->
  exists covs,
    exposure_loop get_err cor exposures = Ok covs
    /\ np_array covs = Ok covs
    /\ length covs = length exposures
    /\ forall j e, exposures !! j = Some e ->
         exists cov,
           covs !! j = Some cov
           /\ shape cov = (N, N)
           /\ forall i k, i < N -> k < N ->
                get cov i k
                = (get cor i k
                   * (nth i (flatten (get_err e)) 0 * nth k (flatten (get_err e)) 0))%Q.
Proof.
  intros Hc Hall.
  destruct (exposure_loop_spec get_err cor exposures N Hc Hall)
    as [covs [Hloop [Hlen [Hsh Hent]]]].
  exists covs. split; [exact Hloop|].
  split; [apply (np_array_same_shape covs _ Hsh)|].
  split; [exact Hlen|].
  intros j e He.
  destruct (Hent j e He) as [cov [Hj Hcov]].
  assert (Hu : length (flatten (get_err e)) = N).
  { rewrite Forall_forall in Hall. apply Hall.
    eapply list_elem_of_lookup_2. exact He. }
  destruct (exposure_cov_entries cor (get_err e) N Hc Hu) as [cov' [Hcov' [Hshc Hentc]]].
  assert (cov' = cov) by congruence. subst cov'.
  exists cov. split; [exact Hj|]. split; [exact Hshc | exact Hentc].
Qed.

(** C7.  For one file, whose geometry is read from its first exposure, the
    correlation is one matrix, bound before the loop over the exposures and
    the same for all of them: the identity of size [Nwave * Nbase] for the
    squared visibilities, the propagated correlation of the incidence matrix
    of the first exposure for the closure phases.  For each kind, when the
    uncertainties of that kind have the size of the correlation in every
    exposure, the result holds one covariance per exposure, in the order of
    the exposures: entry [(i, k)] of the [j]-th covariance is
    [cor[i, k] * (u[i] * u[k])], with [u] the flattened uncertainties of the
    [j]-th exposure. *)
Theorem exposure_batch_ordered (exposures : list exposure) (e0 : exposure) :
  exposures !! 0 = Some e0 ->
  (Forall (fun e => length (flatten (dvis2 e)) = length (wave e0) * nrows (vis2 e0))
          exposures ->
   exists covs,
     vis2cov_file exposures = Ok covs
     /\ length covs = length exposures
     /\ forall j e, exposures !! j = Some e ->
          exists cov,
            covs !! j = Some cov
            /\ shape cov = (length (wave e0) * nrows (vis2 e0),
                            length (wave e0) * nrows (vis2 e0))
            /\ forall i k,
                 i < length (wave e0) * nrows (vis2 e0) ->
                 k < length (wave e0) * nrows (vis2 e0) ->
                 get cov i k
                 = ((if (i =? k)%nat then 1 else 0)
                    * (nth i (flatten (dvis2 e)) 0 * nth k (flatten (dvis2 e)) 0))%Q)
  /\ (Forall (fun e => length (flatten (dt3 e)) = length (wave e0) * nrows (t3mat e0))
             exposures ->
      exists cor covs,
        t3_cor (length (wave e0)) (t3mat e0) = Ok cor
        /\ shape cor = (length (wave e0) * nrows (t3mat e0),
                        length (wave e0) * nrows (t3mat e0))
        /\ t3cov_file exposures = Ok covs
        /\ length covs = length exposures
        /\ forall j e, exposures !! j = Some e ->
             exists cov,
               covs !! j = Some cov
               /\ shape cov = (length (wave e0) * nrows (t3mat e0),
                               length (wave e0) * nrows (t3mat e0))
               /\ forall i k,
                    i < length (wave e0) * nrows (t3mat e0) ->
                    k < length (wave e0) * nrows (t3mat e0) ->
                    get cov i k
                    = (get cor i k
                       * (nth i (flatten (dt3 e)) 0 * nth k (flatten (dt3 e)) 0))%Q).
Proof.
  intros H0. split.
  - intros Hvis.
    destruct (exposure_loop_entries dvis2
                (identity_cor (length (wave e0) * nrows (vis2 e0))) exposures _
                (shape_identity_cor _) Hvis) as [covs [Hloop [Harr [Hlen Hent]]]].
    exists covs. unfold vis2cov_file, list_getitem. rewrite H0.
    change (mbind ?f (Ok ?a)) with (f a). cbv beta zeta.
    rewrite Hloop. change (mbind ?f (Ok ?a)) with (f a). cbv beta.
    split; [exact Harr|]. split; [exact Hlen|].
    intros j e He. destruct (Hent j e He) as [cov [Hj [Hsh Hcov]]].
    exists cov. split; [exact Hj|]. split; [exact Hsh|].
    intros i k Hi Hk. rewrite (Hcov i k Hi Hk).
    rewrite get_identity_cor by assumption. reflexivity.
  - intros Ht3.
    destruct (t3_cor_entries (length (wave e0)) (t3mat e0)) as [cor [Hcor [HshC _]]].
    destruct (exposure_loop_entries dt3 cor exposures _ HshC Ht3)
      as [covs [Hloop [Harr [Hlen Hent]]]].
    exists cor, covs. split; [exact Hcor|]. split; [exact HshC|].
    unfold t3cov_file, list_getitem. rewrite H0.
    change (mbind ?f (Ok ?a)) with (f a). cbv beta zeta.
    rewrite Hcor. change (mbind ?f (Ok ?a)) with (f a). cbv beta.
    rewrite Hloop. change (mbind ?f (Ok ?a)) with (f a). cbv beta.
    split; [exact Harr|]. split; [exact Hlen | exact Hent].
Qed.

Lemma exposure_batch_ordered_witness :
  (exists covs,
     vis2cov_file [exposure_a; exposure_b] = Ok covs
     /\ length covs = 2
     /\ forall j e, [exposure_a; exposure_b] !! j = Some e ->
          exists cov,
            covs !! j = Some cov
            /\ shape cov = (2 * 3, 2 * 3)
            /\ forall i k, i < 2 * 3 -> k < 2 * 3 ->
                 get cov i k
                 = ((if (i =? k)%nat then 1 else 0)
                    * (nth i (flatten (dvis2 e)) 0 * nth k (flatten (dvis2 e)) 0))%Q)
  /\ (exists cor covs,
        t3_cor 2 t3mat_one_triangle = Ok cor
        /\ shape cor = (2 * 1, 2 * 1)
        /\ t3cov_file [exposure_a; exposure_b] = Ok covs
        /\ length covs = 2
        /\ forall j e, [exposure_a; exposure_b] !! j = Some e ->
             exists cov,
               covs !! j = Some cov
               /\ shape cov = (2 * 1, 2 * 1)
               /\ forall i k, i < 2 * 1 -> k < 2 * 1 ->
                    get cov i k
                    = (get cor i k
                       * (nth i (flatten (dt3 e)) 0 * nth k (flatten (dt3 e)) 0))%Q).
Proof.
  destruct (exposure_batch_ordered [exposure_a; exposure_b] exposure_a eq_refl)
    as [Hv Ht].
  split.
  - apply Hv. repeat constructor.
  - apply Ht. repeat constructor.
Defined.

(** The two kinds are independent: a file whose closure-phase uncertainties
    have the wrong size still gets its visibility covariances. *)
Example vis2cov_file_ignores_dt3 :
  exists covs,
    vis2cov_file (default [] (data_list (self session_bad_dt3) !! 0)) = Ok covs
    /\ length covs = 1
    /\ t3cov_file (default [] (data_list (self session_bad_dt3) !! 0))
       = Raise ValueError.
Proof. eexists. split; [vm_compute; reflexivity|]. split; vm_compute; reflexivity. Qed.

(** ** C10: the input directory across [add_cov] *)

Lemma preserves_self_ret {A : Type} (a : A) : preserves_self (mret a : M A).
Proof. intros s. reflexivity. Qed.

Lemma preserves_self_lift {A : Type} (r : result A) : preserves_self (lift r).
Proof. intros s. reflexivity. Qed.

Lemma preserves_self_raise {A : Type} (e : exn) : preserves_self (raise e : M A).
Proof. intros s. reflexivity. Qed.

Lemma preserves_self_get_self : preserves_self get_self.
Proof. intros s. reflexivity. Qed.

Lemma preserves_self_exists p : preserves_self (os_path_exists p).
Proof. intros s. reflexivity. Qed.

Lemma preserves_self_makedirs p : preserves_self (os_makedirs p).
Proof.
  intros s. unfold os_makedirs.
  destruct (bool_decide (p = "")); [reflexivity|].
  destruct (next_fault (fs s)) as [[|] w]; reflexivity.
Qed.

Lemma preserves_self_open p : preserves_self (pyfits_open p).
Proof.
  intros s. unfold pyfits_open.
  destruct (files (fs s) !! resolve (fs s) p) as [[|primary rest]|]; reflexivity.
Qed.

Lemma preserves_self_writeto hdul p : preserves_self (writeto hdul p).
Proof.
  intros s. unfold writeto.
  destruct (next_fault (fs s)) as [[|] w]; [reflexivity|].
  simpl orb. destruct (negb (dir_exists w p)); reflexivity.
Qed.

Lemma preserves_self_bind {A B : Type} (m : M A) (f : A -> M B) :
  preserves_self m -> (forall a, preserves_self (f a)) ->
  preserves_self (m ≫= f).
Proof.
  intros Hm Hf s. unfold mbind, M_bind. specialize (Hm s).
  destruct (m s) as [[a|e] s1]; simpl in *.
  - rewrite Hf. exact Hm.
  - exact Hm.
Qed.

Lemma preserves_self_for_eachM {A : Type} (xs : list A) (body : A -> M unit) :
  (forall x, preserves_self (body x)) -> preserves_self (for_eachM xs body).
Proof.
  intros Hbody. induction xs as [|x xs IH]; simpl.
  - apply preserves_self_ret.
  - apply preserves_self_bind; [apply Hbody | intros _; exact IH].
Qed.

Create HintDb frame.

#[local] Hint Resolve preserves_self_ret preserves_self_lift preserves_self_raise
  preserves_self_get_self preserves_self_exists preserves_self_makedirs
  preserves_self_open preserves_self_writeto : frame.

Ltac frame_step :=
  first [ solve [auto with frame]
        | match goal with
          | |- preserves_self (if ?b then _ else _) => destruct b
          end
        | apply preserves_self_for_eachM; intros ?
        | apply preserves_self_bind; [|intros ?] ].

Lemma preserves_self_ensure_dir odir : preserves_self (ensure_dir odir).
Proof.
  unfold ensure_dir. repeat frame_step.
Qed.

Lemma preserves_self_selected : preserves_self selected_data_list.
Proof.
  unfold selected_data_list. repeat frame_step.
Qed.

Lemma preserves_self_append name i covs odir :
  preserves_self (append_extension name i covs odir).
Proof. unfold append_extension. repeat frame_step. Qed.

#[local] Hint Resolve preserves_self_ensure_dir preserves_self_selected
  preserves_self_append : frame.

(** [add_vis2cov] and [add_t3cov] write files and assign no field. *)
Lemma preserves_self_add_vis2cov odir : preserves_self (add_vis2cov odir).
Proof. unfold add_vis2cov. repeat frame_step. Qed.

Lemma preserves_self_add_t3cov odir : preserves_self (add_t3cov odir).
Proof. unfold add_t3cov. repeat frame_step. Qed.

Lemma idir_redirect d s : idir (self (redirect d s)) = d.
Proof. reflexivity. Qed.

(** C10.  When [add_cov] returns, [self.idir] has the value it had before
    the call.  In between, after [add_vis2cov] has returned, the field is set
    to the output directory, [add_t3cov] runs in that state, and the field is
    set back. *)
Theorem add_cov_restores_idir (odir : string) (s s' : state) :
  add_cov odir s = (Ok tt, s') ->
  idir (self s') = idir (self s)
  /\ exists s0 s1 s2,
       ensure_dir odir s = (Ok tt, s0)
       /\ add_vis2cov odir s0 = (Ok tt, s1)
       /\ idir (self (redirect odir s1)) = odir
       /\ add_t3cov odir (redirect odir s1) = (Ok tt, s2)
       /\ s' = redirect (idir (self s)) s2.
Proof.
  intros H. unfold add_cov in H. unfold mbind, M_bind in H.
  pose proof (preserves_self_ensure_dir odir s) as P0.
  destruct (ensure_dir odir s) as [[[]|e0] s0] eqn:H0; [|discriminate].
  pose proof (preserves_self_add_vis2cov odir s0) as P1.
  destruct (add_vis2cov odir s0) as [[[]|e1] s1] eqn:H1; [|discriminate].
  simpl in P0, P1. simpl in H.
  change (add_t3cov odir _) with (add_t3cov odir (redirect odir s1)) in H.
  destruct (add_t3cov odir (redirect odir s1)) as [[[]|e2] s2] eqn:H2; [|discriminate].
  unfold set_idir in H. injection H as <-.
  assert (Htemp : idir (self s1) = idir (self s)) by (rewrite P1, P0; reflexivity).
  split.
  - simpl. exact Htemp.
  - exists s0, s1, s2.
    split; [reflexivity|]. split; [exact H1|]. split; [reflexivity|].
    split; [exact H2|].
    rewrite <- Htemp. reflexivity.
Qed.

(** On the session [session], [add_cov] returns with [self.idir] restored.
    In the file written to the output directory the primary extension of the
    input file is followed by [T3COV] and then [VIS2COV]. *)
Lemma add_cov_restores_idir_witness :
  add_cov "out/" session = (Ok tt, snd (add_cov "out/" session))
  /\ (idir (self (snd (add_cov "out/" session))) = idir (self session)
      /\ exists s0 s1 s2,
           ensure_dir "out/" session = (Ok tt, s0)
           /\ add_vis2cov "out/" s0 = (Ok tt, s1)
           /\ idir (self (redirect "out/" s1)) = "out/"
           /\ add_t3cov "out/" (redirect "out/" s1) = (Ok tt, s2)
           /\ snd (add_cov "out/" session) = redirect (idir (self session)) s2).
Proof.
  assert (H : add_cov "out/" session = (Ok tt, snd (add_cov "out/" session)))
    by (vm_compute; reflexivity).
  split; [exact H|].
  apply (add_cov_restores_idir "out/" session _ H).
Defined.

Example add_cov_output_file :
  map extname
    (default [] (files (fs (snd (add_cov "out/" session))) !! "out/a.fits"))
  = ["PRIMARY"; "T3COV"; "VIS2COV"].
Proof. vm_compute. reflexivity. Qed.

(** When [add_t3cov] raises, [add_cov] raises too, and the assignment that
    restores [self.idir] is not reached. *)
Example add_cov_raise_keeps_redirect :
  fst (add_cov "out/" session_bad_dt3) = Raise ValueError
  /\ idir (self (snd (add_cov "out/" session_bad_dt3))) = "out/".
Proof. split; vm_compute; reflexivity. Qed.

(** * Further properties of the engine *)

(** The closure-phase correlation of lines 199-209 is the Gram matrix of the
    rows of the incidence matrix, divided by 3, repeated on every wavelength:
    entry [(k * Nwave + a, l * Nwave + b)] is
    [sum_m t3mat[k, m] * t3mat[l, m] / 3] when [a = b] and 0 otherwise. *)
Theorem t3_cor_gram (Nwave : nat) (t3mat : ndarray) :
  exists cor,
    t3_cor Nwave t3mat = Ok cor
    /\ shape cor = (Nwave * nrows t3mat, Nwave * nrows t3mat)
    /\ forall k l a b,
         k < nrows t3mat -> l < nrows t3mat -> a < Nwave -> b < Nwave ->
         (get cor (k * Nwave + a) (l * Nwave + b)
          == if a =? b
             then sum_upto (ncols t3mat) (fun m => get t3mat k m * get t3mat l m) / 3
             else 0)%Q.
Proof.
  destruct (t3_cor_entries Nwave t3mat) as [cor [Hcor [Hsh Hent]]].
  exists cor. split; [exact Hcor|]. split; [exact Hsh|].
  intros k l a b Hk Hl Ha Hb. rewrite Hent by assumption.
  unfold delta. destruct (a =? b); unfold Qdiv; ring.
Qed.

Lemma t3_cor_gram_witness :
  exists cor,
    t3_cor 2 t3mat_four_telescopes = Ok cor
    /\ shape cor = (2 * nrows t3mat_four_telescopes, 2 * nrows t3mat_four_telescopes)
    /\ forall k l a b,
         k < nrows t3mat_four_telescopes -> l < nrows t3mat_four_telescopes ->
         a < 2 -> b < 2 ->
         (get cor (k * 2 + a) (l * 2 + b)
          == if a =? b
             then sum_upto (ncols t3mat_four_telescopes)
                    (fun m => get t3mat_four_telescopes k m
                              * get t3mat_four_telescopes l m) / 3
             else 0)%Q.
Proof. apply (t3_cor_gram 2 t3mat_four_telescopes). Defined.

(** Two triangles that share no baseline are uncorrelated at every pair of
    wavelengths. *)
Theorem t3_cor_disjoint_triangles (Nwave : nat) (t3mat : ndarray) (k l : nat) :
  k < nrows t3mat -> l < nrows t3mat ->
  (forall m, m < ncols t3mat ->
             (get t3mat k m == 0)%Q \/ (get t3mat l m == 0)%Q) ->
  exists cor,
    t3_cor Nwave t3mat = Ok cor
    /\ forall a b, a < Nwave -> b < Nwave ->
         (get cor (k * Nwave + a) (l * Nwave + b) == 0)%Q.
Proof.
  intros Hk Hl Hdisj.
  destruct (t3_cor_entries Nwave t3mat) as [cor [Hcor [_ Hent]]].
  exists cor. split; [exact Hcor|].
  intros a b Ha Hb. rewrite Hent by assumption.
  rewrite (sum_upto_zero (ncols t3mat)
             (fun m => (get t3mat k m * get t3mat l m)%Q)).
  - unfold Qdiv. ring.
  - intros m Hm. destruct (Hdisj m Hm) as [H|H]; rewrite H; ring.
Qed.

(** In exact arithmetic, the covariance of the squared visibilities
    (lines 151-155) is the diagonal matrix of the squared uncertainties.
    The statement is about finite numbers computed without rounding: in
    double precision the entry off the diagonal is the product
    [0.0 * (u[i] * u[j])], which is NaN and not zero when [u[i] * u[j]] is
    infinite or NaN. *)
Theorem vis2_cov_diagonal_matrix (N : nat) (d : ndarray) :
  length (flatten d) = N ->
  exists cov,
    exposure_cov (identity_cor N) d = Ok cov
    /\ shape cov = (N, N)
    /\ forall i j, i < N -> j < N ->
         (get cov i j
          == if i =? j then nth i (flatten d) 0 * nth i (flatten d) 0 else 0)%Q.
Proof.
  intros Hu.
  destruct (exposure_cov_entries (identity_cor N) d N (shape_identity_cor N) Hu)
    as [cov [Hcov [Hsh Hent]]].
  exists cov. split; [exact Hcov|]. split; [exact Hsh|].
  intros i j Hi Hj. rewrite Hent, get_identity_cor by assumption.
  unfold delta. destruct (Nat.eqb_spec i j) as [->|Hne]; ring.
Qed.

Lemma vis2_cov_diagonal_matrix_witness :
  length (flatten dvis2_3x2) = 6
  /\ exists cov,
       exposure_cov (identity_cor 6) dvis2_3x2 = Ok cov
       /\ shape cov = (6, 6)
       /\ forall i j, i < 6 -> j < 6 ->
            (get cov i j
             == if i =? j
                then nth i (flatten dvis2_3x2) 0 * nth i (flatten dvis2_3x2) 0
                else 0)%Q.
Proof.
  split; [reflexivity|].
  apply (vis2_cov_diagonal_matrix 6 dvis2_3x2). reflexivity.
Defined.

(** In exact arithmetic, whatever the incidence matrix, the closure-phase
    correlation and the covariance of every exposure of matching size
    (lines 209 and 213) are symmetric.  The statement is about numbers
    computed without rounding: in double precision [np.dot] rounds the two
    mirrored entries of the correlation along different paths, and they agree
    only up to rounding. *)
Theorem t3_cov_symmetric (Nwave : nat) (t3mat d : ndarray) :
  length (flatten d) = Nwave * nrows t3mat ->
  exists cor cov,
    t3_cor Nwave t3mat = Ok cor
    /\ symmetric cor
    /\ exposure_cov cor d = Ok cov
    /\ symmetric cov.
Proof.
  intros Hu.
  destruct (build_trafo_spec Nwave t3mat) as [T [HT [Hsh _]]].
  assert (HcT : ncols T = Nwave * ncols t3mat)
    by (unfold ncols at 1; rewrite Hsh; reflexivity).
  destruct (propagate_symmetric T (identity_cor (Nwave * ncols t3mat))
              (Nwave * ncols t3mat) HcT (shape_identity_cor _)
              (identity_cor_symmetric _)) as [cor [Hcor Hsym]].
  assert (Ht3 : t3_cor Nwave t3mat = Ok cor).
  { unfold t3_cor. rewrite HT. exact Hcor. }
  destruct (t3_cor_entries Nwave t3mat) as [cor' [Hcor' [HshC _]]].
  assert (cor' = cor) by congruence. subst cor'.
  destruct (exposure_cov_symmetric cor d _ HshC Hu Hsym) as [cov [Hcov Hsc]].
  exists cor, cov. repeat split; try assumption; apply Hsym || apply Hsc.
Qed.

Lemma t3_cov_symmetric_witness :
  length (flatten dt3_2x1) = 1 * nrows t3mat_shared_baseline
  /\ exists cor cov,
       t3_cor 1 t3mat_shared_baseline = Ok cor
       /\ symmetric cor
       /\ exposure_cov cor dt3_2x1 = Ok cov
       /\ symmetric cov.
Proof.
  split; [reflexivity|].
  apply (t3_cov_symmetric 1 t3mat_shared_baseline dt3_2x1). reflexivity.
Defined.

Lemma t3_cor_disjoint_triangles_witness :
  exists cor,
    t3_cor 2 t3mat_disjoint = Ok cor
    /\ forall a b, a < 2 -> b < 2 ->
         (get cor (0 * 2 + a) (1 * 2 + b) == 0)%Q.
Proof.
  apply (t3_cor_disjoint_triangles 2 t3mat_disjoint 0 1).
  - vm_compute. lia.
  - vm_compute. lia.
  - intros m Hm. change (ncols t3mat_disjoint) with 6 in Hm.
    destruct m as [|[|[|m]]]; [right | right | right |]; try reflexivity.
    destruct m as [|[|[|m]]]; [left | left | left | lia]; reflexivity.
Defined.

(** ** Exposures of the wrong size *)

Lemma exposure_cov_ok_or_value_error cor d :
  (exists cov, exposure_cov cor d = Ok cov) \/ exposure_cov cor d = Raise ValueError.
Proof.
  unfold exposure_cov. rewrite np_multiply_outer.
  change (mbind ?f (Ok ?a)) with (f a). cbv beta.
  unfold np_multiply.
  destruct (broadcast_dim _ _); [|right; reflexivity].
  destruct (broadcast_dim _ _); [|right; reflexivity].
  left. eexists. reflexivity.
Qed.

(** The loop over the exposures raises [ValueError] as soon as one exposure
    cannot be multiplied with the correlation. *)
Lemma exposure_loop_raises (get_err : exposure -> ndarray) cor exposures j e :
  exposures !! j = Some e ->
  exposure_cov cor (get_err e) = Raise ValueError ->
  exposure_loop get_err cor exposures = Raise ValueError.
Proof.
  intros He Hbad. unfold exposure_loop, range.
  assert (Hgen : forall len start acc,
             start <= j < start + len -> start + len <= length exposures ->
             for_each (seq start len)
               (fun j covs =>
                  e ← list_getitem exposures j;
                  cov ← exposure_cov cor (get_err e);
                  Ok (covs ++ [cov])) acc = Raise ValueError).
  { induction len as [|len IH]; intros start acc Hj Hlen; [lia|]. simpl.
    destruct (lookup_lt_is_Some_2 exposures start) as [e' He']; [lia|].
    unfold list_getitem at 1. rewrite He'.
    change (mbind ?f (Ok ?a)) with (f a). cbv beta.
    destruct (Nat.eq_dec start j) as [->|Hne].
    - assert (e' = e) by congruence. subst e'. rewrite Hbad. reflexivity.
    - destruct (exposure_cov_ok_or_value_error cor (get_err e')) as [[cov Hc]|Hc];
        rewrite Hc.
      + change (mbind ?f (Ok ?a)) with (f a). cbv beta.
        apply IH; lia.
      + reflexivity. }
  apply Hgen; [|lia].
  apply lookup_lt_Some in He. lia.
Qed.

(** Lines 148-157 and 199-215.  A file in which one exposure has
    uncertainties of a size that is neither the size [N] of the correlation
    nor 1, with [N] other than 1, is refused with [ValueError], whatever the
    other exposures hold. *)
Theorem file_wrong_size_raises (exposures : list exposure) (e0 e : exposure) (j : nat) :
  exposures !! 0 = Some e0 ->
  exposures !! j = Some e ->
  (length (flatten (dvis2 e)) <> length (wave e0) * nrows (vis2 e0)
   /\ length (wave e0) * nrows (vis2 e0) <> 1
   /\ length (flatten (dvis2 e)) <> 1 ->
   vis2cov_file exposures = Raise ValueError)
  /\ (length (flatten (dt3 e)) <> length (wave e0) * nrows (t3mat e0)
      /\ length (wave e0) * nrows (t3mat e0) <> 1
      /\ length (flatten (dt3 e)) <> 1 ->
      t3cov_file exposures = Raise ValueError).
Proof.
  intros H0 He. split; intros Hbad.
  - unfold vis2cov_file, list_getitem. rewrite H0.
    change (mbind ?f (Ok ?a)) with (f a). cbv beta zeta.
    rewrite (exposure_loop_raises dvis2 _ exposures j e He); [reflexivity|].
    apply (exposure_cov_raises_iff _ _ _ (shape_identity_cor _)). exact Hbad.
  - destruct (t3_cor_entries (length (wave e0)) (t3mat e0)) as [cor [Hcor [Hsh _]]].
    unfold t3cov_file, list_getitem. rewrite H0.
    change (mbind ?f (Ok ?a)) with (f a). cbv beta zeta.
    rewrite Hcor. change (mbind ?f (Ok ?a)) with (f a). cbv beta.
    rewrite (exposure_loop_raises dt3 cor exposures j e He); [reflexivity|].
    apply (exposure_cov_raises_iff _ _ _ Hsh). exact Hbad.
Qed.

Lemma file_wrong_size_raises_witness :
  vis2cov_file exposures_bad_size = Raise ValueError
  /\ t3cov_file exposures_bad_size = Raise ValueError.
Proof.
  destruct (file_wrong_size_raises exposures_bad_size exposure_a
              {| wave := wave exposure_a;
                 vis2 := vis2 exposure_a;
                 dvis2 := derr_1x3;
                 t3mat := t3mat exposure_a;
                 dt3 := derr_1x3 |} 1 eq_refl eq_refl) as [Hv Ht].
  split; [apply Hv | apply Ht]; vm_compute; repeat split; discriminate.
Defined.

(** * The methods *)

(** ** Running a method *)

Lemma run_bind {A B : Type} (m : M A) (f : A -> M B) s a s1 :
  m s = (Ok a, s1) -> (m ≫= f) s = f a s1.
Proof. intros H. unfold mbind, M_bind. rewrite H. reflexivity. Qed.

Lemma run_bind_raise {A B : Type} (m : M A) (f : A -> M B) s e s1 :
  m s = (Raise e, s1) -> (m ≫= f) s = (Raise e, s1).
Proof. intros H. unfold mbind, M_bind. rewrite H. reflexivity. Qed.

Lemma bind_ok_inv {A B : Type} (m : M A) (f : A -> M B) s b s' :
  (m ≫= f) s = (Ok b, s') ->
  exists a s1, m s = (Ok a, s1) /\ f a s1 = (Ok b, s').
Proof.
  unfold mbind, M_bind. destruct (m s) as [[a|e] s1]; intros H.
  - exists a, s1. split; [reflexivity | exact H].
  - discriminate.
Qed.

Lemma keeps_ret {X A : Type} (part : state -> X) (a : A) : keeps part (mret a : M A).
Proof. intros s. reflexivity. Qed.

Lemma keeps_lift {X A : Type} (part : state -> X) (r : result A) : keeps part (lift r).
Proof. intros s. reflexivity. Qed.

Lemma keeps_raise {X A : Type} (part : state -> X) (e : exn) :
  keeps part (raise e : M A).
Proof. intros s. reflexivity. Qed.

Lemma keeps_get_self {X : Type} (part : state -> X) : keeps part get_self.
Proof. intros s. reflexivity. Qed.

Lemma keeps_bind {X A B : Type} (part : state -> X) (m : M A) (f : A -> M B) :
  keeps part m -> (forall a, keeps part (f a)) -> keeps part (m ≫= f).
Proof.
  intros Hm Hf s. unfold mbind, M_bind. specialize (Hm s).
  destruct (m s) as [[a|e] s1]; simpl in *.
  - rewrite Hf. exact Hm.
  - exact Hm.
Qed.

Lemma keeps_for_eachM {X A : Type} (part : state -> X) (xs : list A)
    (body : A -> M unit) :
  (forall x, keeps part (body x)) -> keeps part (for_eachM xs body).
Proof.
  intros Hbody. induction xs as [|x xs IH]; simpl.
  - apply keeps_ret.
  - apply keeps_bind; [apply Hbody | intros _; exact IH].
Qed.

Lemma keeps_of_self {X A : Type} (f : data -> X) (m : M A) :
  preserves_self m -> keeps (fun s => f (self s)) m.
Proof. intros H s. rewrite H. reflexivity. Qed.

(** A loop that returns at every step keeps an invariant. *)
Lemma for_eachM_seq_invariant (P : nat -> state -> Prop) (body : nat -> M unit)
    len start s :
  P start s ->
  (forall k s1, start <= k < start + len -> P k s1 ->
                exists s2, body k s1 = (Ok tt, s2) /\ P (S k) s2) ->
  exists s', for_eachM (seq start len) body s = (Ok tt, s') /\ P (start + len) s'.
Proof.
  revert start s. induction len as [|len IH]; intros start s H0 Hstep; simpl.
  - exists s. rewrite Nat.add_0_r. split; [reflexivity | exact H0].
  - destruct (Hstep start s) as [s1 [Hb H1]]; [lia | exact H0 |].
    rewrite (run_bind _ _ _ _ _ Hb).
    destruct (IH (S start) s1) as [s2 [Hf H2]].
    + exact H1.
    + intros k s3 Hk. apply Hstep. lia.
    + exists s2. split; [exact Hf|].
      replace (start + S len) with (S start + len) by lia. exact H2.
Qed.

(** ** The data of the selected instrument (lines 139-145 and 190-196) *)

Lemma collect_lookups {D : Type} (ws : list nat) (f : nat -> result D) (g : nat -> D) :
  (forall w, w ∈ ws -> f w = Ok (g w)) ->
  for_each (range (length ws))
    (fun i acc => w ← list_getitem ws i; d ← f w; Ok (acc ++ [d])) []
  = Ok (map g ws).
Proof.
  intros Hf.
  destruct (for_range_invariant
              (fun k (acc : list D) => acc = map g (take k ws))
              (fun i acc => w ← list_getitem ws i; d ← f w; Ok (acc ++ [d]))
              (length ws) []) as [acc [Hloop Hacc]].
  - rewrite take_0. reflexivity.
  - intros k acc Hk ->.
    destruct (lookup_lt_is_Some_2 ws k Hk) as [w Hw].
    unfold list_getitem. rewrite Hw.
    change (mbind ?h (Ok ?a)) with (h a). cbv beta.
    rewrite (Hf w) by (eapply list_elem_of_lookup_2; exact Hw).
    change (mbind ?h (Ok ?a)) with (h a). cbv beta.
    eexists. split; [reflexivity|].
    rewrite (take_S_r ws k w Hw), map_app. reflexivity.
  - rewrite Hloop, Hacc, firstn_all. reflexivity.
Qed.

Lemma np_where_eq_bound il x start w :
  w ∈ np_where_eq il x start -> start <= w < start + length il.
Proof.
  revert start. induction il as [|y il IH]; intros start Hw; simpl in *.
  - inversion Hw.
  - destruct (String.eqb y x).
    + apply elem_of_cons in Hw. destruct Hw as [->|Hw]; [lia|].
      apply IH in Hw. lia.
    + apply IH in Hw. lia.
Qed.

Lemma map_where_eq_data il x :
  forall (pre dl : list (list exposure)),
    length il <= length dl ->
    map (fun w => default [] ((pre ++ dl) !! w)) (np_where_eq il x (length pre))
    = data_of_inst il dl x.
Proof.
  induction il as [|y il IH]; intros pre dl Hlen; [reflexivity|].
  destruct dl as [|d dl]; [simpl in Hlen; lia|].
  simpl in Hlen.
  assert (Hrec : map (fun w => default [] ((pre ++ d :: dl) !! w))
                   (np_where_eq il x (S (length pre)))
                 = data_of_inst il dl x).
  { specialize (IH (pre ++ [d]) dl).
    rewrite length_app in IH. simpl in IH.
    rewrite Nat.add_1_r in IH. rewrite <- app_assoc in IH. simpl in IH.
    apply IH. lia. }
  simpl. destruct (String.eqb y x); simpl.
  - rewrite Hrec. f_equal.
    rewrite lookup_app_r by lia. rewrite Nat.sub_diag. reflexivity.
  - exact Hrec.
Qed.

(** When every instrument opened has its data, the selection returns the
    data of the selected instrument, in the order of [inst_list], if there
    is one entry per fits file, and raises [UserWarning] otherwise; it changes
    nothing. *)
Lemma selected_data_list_spec s :
  length (inst_list (self s)) <= length (data_list (self s)) ->
  selected_data_list s
  = (let dl := data_of_inst (inst_list (self s)) (data_list (self s)) (inst (self s)) in
     if length (fitsfiles (self s)) =? length dl then Ok dl else Raise UserWarning,
     s).
Proof.
  intros Hlen. unfold selected_data_list.
  rewrite (run_bind get_self _ s (self s) s eq_refl).
  cbv zeta.
  rewrite (collect_lookups _ (fun w => list_getitem (data_list (self s)) w)
             (fun w => default [] (data_list (self s) !! w))).
  - change (data_list (self s)) with ([] ++ data_list (self s)) at 1.
    rewrite (map_where_eq_data _ _ [] (data_list (self s)) Hlen).
    erewrite run_bind by reflexivity.
    destruct (length (fitsfiles (self s)) =? length _); reflexivity.
  - intros w Hw. apply np_where_eq_bound in Hw.
    destruct (lookup_lt_is_Some_2 (data_list (self s)) w) as [d Hd]; [lia|].
    unfold list_getitem. rewrite Hd. reflexivity.
Qed.

(** ** Writing the extensions (lines 147-164 and 198-222) *)

Lemma add_vis2cov_eq odir : add_vis2cov odir = add_extension vis2cov_file "VIS2COV" odir.
Proof. reflexivity. Qed.

Lemma add_t3cov_eq odir : add_t3cov odir = add_extension t3cov_file "T3COV" odir.
Proof. reflexivity. Qed.

(** A call that the operating system can refuse changes the file system
    only if it succeeds. *)
Lemma next_fault_frame w :
  dirs (snd (next_fault w)) = dirs w
  /\ files (snd (next_fault w)) = files w
  /\ resolve (snd (next_fault w)) = resolve w.
Proof. unfold next_fault. destruct (faults w); simpl; auto. Qed.

Lemma next_fault_none w : faults w = [] -> next_fault w = (false, w).
Proof. unfold next_fault. intros ->. reflexivity. Qed.

Lemma writeto_cases hdul p s :
  self (snd (writeto hdul p s)) = self s
  /\ dirs (fs (snd (writeto hdul p s))) = dirs (fs s)
  /\ resolve (fs (snd (writeto hdul p s))) = resolve (fs s)
  /\ ((fst (writeto hdul p s) = Ok tt
       /\ files (fs (snd (writeto hdul p s)))
          = <[ resolve (fs s) p := hdul ]> (files (fs s)))
      \/ (fst (writeto hdul p s) = Raise OSError
          /\ files (fs (snd (writeto hdul p s))) = files (fs s))).
Proof.
  unfold writeto.
  destruct (next_fault_frame (fs s)) as (D & F & R).
  destruct (next_fault (fs s)) as [[|] w]; simpl in *.
  - repeat split; auto.
  - destruct (negb (dir_exists w p)); simpl; rewrite ?D, ?F, ?R; repeat split; auto.
Qed.

Lemma writeto_ok hdul p s :
  faults (fs s) = [] ->
  dir_exists (fs s) p = true ->
  exists s',
    writeto hdul p s = (Ok tt, s')
    /\ self s' = self s
    /\ dirs (fs s') = dirs (fs s)
    /\ resolve (fs s') = resolve (fs s)
    /\ faults (fs s') = []
    /\ files (fs s') = <[ resolve (fs s) p := hdul ]> (files (fs s)).
Proof.
  intros H Hd. unfold writeto. rewrite (next_fault_none _ H), Hd.
  eexists. split; [reflexivity|]. simpl. repeat split; auto.
Qed.

(** One file: the method assigns no field, creates no directory, and either
    leaves every file as it is or returns after replacing [odir + f]. *)
Lemma file_step_frame per_file name odir dl i s :
  self (snd (file_step per_file name odir dl i s)) = self s
  /\ dirs (fs (snd (file_step per_file name odir dl i s))) = dirs (fs s)
  /\ resolve (fs (snd (file_step per_file name odir dl i s))) = resolve (fs s)
  /\ (files (fs (snd (file_step per_file name odir dl i s))) = files (fs s)
      \/ exists f hdul,
           fitsfiles (self s) !! i = Some f
           /\ files (fs (snd (file_step per_file name odir dl i s)))
              = <[ output_name odir s f := hdul ]> (files (fs s))).
Proof.
  unfold file_step, append_extension, list_getitem, lift, get_self, pyfits_open,
    mbind, M_bind.
  destruct (dl !! i) as [exps|]; [|repeat split; auto].
  destruct (per_file exps) as [covs|e]; [|repeat split; auto].
  destruct (fitsfiles (self s) !! i) as [f|] eqn:Hf; [|repeat split; auto].
  destruct (files (fs s) !! resolve (fs s) (idir (self s) +:+ f))
    as [[|primary rest]|]; [repeat split; auto | | repeat split; auto].
  rewrite Hf.
  destruct (writeto_cases
              (iadd_opened (primary :: rest)
                 {| extname := name; insname := inst (self s); image := covs |})
              (odir +:+ f) s) as (W1 & W2 & W3 & W4).
  split; [exact W1|]. split; [exact W2|]. split; [exact W3|].
  destruct W4 as [[_ W]|[_ W]]; [right | left; exact W].
  exists f. eexists. split; [reflexivity | exact W].
Qed.

(** One file, when nothing is refused and everything needed is there. *)
Lemma file_step_ok per_file name odir dl i s exps covs f primary rest :
  faults (fs s) = [] ->
  dl !! i = Some exps ->
  per_file exps = Ok covs ->
  fitsfiles (self s) !! i = Some f ->
  files (fs s) !! input_name s f = Some (primary :: rest) ->
  dir_exists (fs s) (odir +:+ f) = true ->
  exists s',
    file_step per_file name odir dl i s = (Ok tt, s')
    /\ self s' = self s
    /\ dirs (fs s') = dirs (fs s)
    /\ resolve (fs s') = resolve (fs s)
    /\ faults (fs s') = []
    /\ files (fs s')
       = <[ output_name odir s f := primary :: cov_hdu name s covs :: rest ]>
           (files (fs s)).
Proof.
  intros H0 H1 H2 H3 H4 Hd. unfold input_name in H4.
  destruct (writeto_ok (primary :: cov_hdu name s covs :: rest) (odir +:+ f) s H0 Hd)
    as (s' & W & W1 & W2 & W3 & W4 & W5).
  exists s'. split; [|repeat split; assumption].
  unfold file_step, append_extension, list_getitem, lift, get_self, pyfits_open,
    mbind, M_bind.
  rewrite H1, H2, H3, H4. rewrite H3. exact W.
Qed.

Lemma ensure_dir_frame odir s :
  self (snd (ensure_dir odir s)) = self s
  /\ files (fs (snd (ensure_dir odir s))) = files (fs s)
  /\ resolve (fs (snd (ensure_dir odir s))) = resolve (fs s)
  /\ (fst (ensure_dir odir s) = Ok tt \/ fst (ensure_dir odir s) = Raise OSError)
  /\ (faults (fs s) = [] -> odir <> "" ->
      fst (ensure_dir odir s) = Ok tt /\ faults (fs (snd (ensure_dir odir s))) = []).
Proof.
  unfold ensure_dir, os_path_exists, os_makedirs, mbind, M_bind.
  destruct (negb _).
  - destruct (decide (odir = "")) as [E|E].
    + rewrite (bool_decide_eq_true_2 _ E). cbn [fst snd].
      split; [reflexivity|]. split; [reflexivity|]. split; [reflexivity|].
      split; [right; reflexivity|]. intros _ Hne. contradiction.
    + rewrite (bool_decide_eq_false_2 _ E).
      destruct (next_fault_frame (fs s)) as (D & F & R).
      pose proof (next_fault_none (fs s)) as Hn.
      destruct (next_fault (fs s)) as [[|] w];
        cbn [fst snd self fs files resolve faults] in *.
      * split; [reflexivity|]. split; [exact F|]. split; [exact R|].
        split; [right; reflexivity|].
        intros H0 _. specialize (Hn H0). discriminate.
      * split; [reflexivity|]. split; [exact F|]. split; [exact R|].
        split; [left; reflexivity|].
        intros H0 _. specialize (Hn H0). injection Hn as ->.
        split; [reflexivity | exact H0].
  - cbn [fst snd]. split; [reflexivity|]. split; [reflexivity|]. split; [reflexivity|].
    split; [left; reflexivity|]. intros H0 _. split; [reflexivity | exact H0].
Qed.

(** Making the output directory a second time changes nothing. *)
Lemma ensure_dir_again odir s s0 :
  ensure_dir odir s = (Ok tt, s0) ->
  odir <> "" ->
  forall t, resolve (fs t) = resolve (fs s0) ->
            dirs (fs s0) ⊆ dirs (fs t) ->
            (is_Some (files (fs s0) !! resolve (fs s0) odir) ->
             is_Some (files (fs t) !! resolve (fs s0) odir)) ->
            ensure_dir odir t = (Ok tt, t).
Proof.
  intros E Hne t Rt Dt Ft.
  assert (Hex : resolve (fs s0) odir ∈ dirs (fs s0)
                \/ is_Some (files (fs s0) !! resolve (fs s0) odir)).
  { revert E. unfold ensure_dir, os_path_exists, os_makedirs, mbind, M_bind.
    rewrite (bool_decide_eq_false_2 _ Hne). cbn [negb andb].
    destruct (decide (resolve (fs s) odir ∈ dirs (fs s))) as [Hd|Hd].
    - rewrite (bool_decide_eq_true_2 _ Hd). cbn [orb negb].
      intros E. injection E as <-. left. exact Hd.
    - rewrite (bool_decide_eq_false_2 _ Hd). cbn [orb].
      destruct (decide (is_Some (files (fs s) !! resolve (fs s) odir))) as [Hf|Hf].
      + rewrite (bool_decide_eq_true_2 _ Hf). cbn [negb].
        intros E. injection E as <-. right. exact Hf.
      + rewrite (bool_decide_eq_false_2 _ Hf). cbn [negb].
        destruct (next_fault_frame (fs s)) as (_ & _ & R).
        destruct (next_fault (fs s)) as [[|] w]; [discriminate|].
        intros E. injection E as <-. left.
        cbn [fs dirs resolve].
        apply elem_of_union_l, elem_of_union_l, elem_of_singleton. reflexivity. }
  unfold ensure_dir, os_path_exists, mbind, M_bind.
  rewrite (bool_decide_eq_false_2 _ Hne), Rt. cbn [negb andb].
  destruct Hex as [Hd|Hf].
  - rewrite (bool_decide_eq_true_2 (resolve (fs s0) odir ∈ dirs (fs t)))
      by (apply Dt; exact Hd).
    reflexivity.
  - rewrite (bool_decide_eq_true_2 (is_Some (files (fs t) !! resolve (fs s0) odir)))
      by (apply Ft; exact Hf).
    rewrite orb_true_r. reflexivity.
Qed.

Lemma selected_data_list_state s : snd (selected_data_list s) = s.
Proof.
  assert (H : keeps (fun s => s) selected_data_list).
  { unfold selected_data_list.
    apply keeps_bind; [apply keeps_get_self | intros me].
    apply keeps_bind; [apply keeps_lift | intros dl].
    destruct (negb _); [apply keeps_raise | apply keeps_ret]. }
  apply H.
Qed.

Lemma selected_data_list_fields s s' :
  selection_fields s = selection_fields s' ->
  fst (selected_data_list s) = fst (selected_data_list s').
Proof.
  unfold selection_fields. intros H. injection H as H1 H2 H3 H4.
  unfold selected_data_list, get_self, lift, raise, mbind, M_bind, mret, M_ret.
  rewrite H1, H2, H3, H4.
  destruct (for_each _ _ _) as [dl|e]; [|reflexivity].
  destruct (negb _); reflexivity.
Qed.

Lemma selected_data_list_transfer s s' dl :
  selection_fields s = selection_fields s' ->
  selected_data_list s = (Ok dl, s) ->
  selected_data_list s' = (Ok dl, s').
Proof.
  intros Hf Hs.
  pose proof (selected_data_list_fields s s' Hf) as H1.
  pose proof (selected_data_list_state s') as H2.
  rewrite Hs in H1. simpl in H1.
  destruct (selected_data_list s') as [r t]. simpl in *. congruence.
Qed.

Lemma selected_data_list_length s dl s' :
  selected_data_list s = (Ok dl, s') ->
  length (fitsfiles (self s)) = length dl.
Proof.
  unfold selected_data_list, get_self, lift, raise, mbind, M_bind, mret, M_ret.
  destruct (for_each _ _ _) as [dl'|e]; [|discriminate].
  destruct (Nat.eqb_spec (length (fitsfiles (self s))) (length dl')) as [E|E];
    simpl; [|discriminate].
  intros H. injection H as <- _. exact E.
Qed.

(** The loop over the files assigns no field, creates no directory and
    writes only files named by [odir + f], with [f] among the fits files,
    whether it returns or raises. *)
Lemma file_loop_frame per_file name odir dl xs s :
  self (snd (for_eachM xs (file_step per_file name odir dl) s)) = self s
  /\ dirs (fs (snd (for_eachM xs (file_step per_file name odir dl) s))) = dirs (fs s)
  /\ resolve (fs (snd (for_eachM xs (file_step per_file name odir dl) s)))
     = resolve (fs s)
  /\ forall q, (forall f, f ∈ fitsfiles (self s) -> q <> output_name odir s f) ->
       files (fs (snd (for_eachM xs (file_step per_file name odir dl) s))) !! q
       = files (fs s) !! q.
Proof.
  revert s. induction xs as [|x xs IH]; intros s; cbn [for_eachM].
  - repeat split; auto.
  - destruct (file_step_frame per_file name odir dl x s) as (S1 & D1 & R1 & F1).
    destruct (file_step per_file name odir dl x s) as [[[]|e] s1] eqn:E;
      cbn [fst snd] in *.
    + rewrite (run_bind _ _ _ _ _ E).
      destruct (IH s1) as (I1 & I2 & I3 & I4).
      split; [rewrite I1; exact S1|].
      split; [rewrite I2; exact D1|].
      split; [rewrite I3; exact R1|].
      intros q Hq.
      rewrite I4.
      * destruct F1 as [F1|(f & hdul & Hf & F1)]; rewrite F1; [reflexivity|].
        apply lookup_insert_ne. intros Heq. apply (Hq f); [|symmetry; exact Heq].
        eapply list_elem_of_lookup_2. exact Hf.
      * intros f Hf. unfold output_name. rewrite R1, S1 in *.
        apply Hq. exact Hf.
    + rewrite (run_bind_raise _ _ _ _ _ E). cbn [snd].
      split; [exact S1|]. split; [exact D1|]. split; [exact R1|].
      intros q Hq.
      destruct F1 as [F1|(f & hdul & Hf & F1)]; rewrite F1; [reflexivity|].
      apply lookup_insert_ne. intros Heq. apply (Hq f); [|symmetry; exact Heq].
      eapply list_elem_of_lookup_2. exact Hf.
Qed.

Lemma add_extension_frame per_file name odir s :
  self (snd (add_extension per_file name odir s)) = self s
  /\ resolve (fs (snd (add_extension per_file name odir s))) = resolve (fs s)
  /\ forall q, (forall f, f ∈ fitsfiles (self s) -> q <> output_name odir s f) ->
       files (fs (snd (add_extension per_file name odir s))) !! q
       = files (fs s) !! q.
Proof.
  unfold add_extension.
  destruct (ensure_dir_frame odir s) as (S0 & F0 & R0 & _).
  destruct (ensure_dir odir s) as [[[]|e0] s0] eqn:E0; cbn [fst snd] in *.
  2: { rewrite (run_bind_raise _ _ _ _ _ E0). cbn [snd].
       split; [exact S0|]. split; [exact R0|]. intros q _. rewrite F0. reflexivity. }
  rewrite (run_bind _ _ _ _ _ E0).
  pose proof (selected_data_list_state s0) as Hst.
  destruct (selected_data_list s0) as [[dl|e] s0'] eqn:Esel; simpl in Hst; subst s0'.
  - rewrite (run_bind _ _ _ _ _ Esel).
    rewrite (run_bind get_self _ s0 (self s0) s0 eq_refl).
    destruct (file_loop_frame per_file name odir dl
                (range (length (fitsfiles (self s0)))) s0) as (I1 & _ & I3 & I4).
    split; [rewrite I1; exact S0|]. split; [rewrite I3; exact R0|].
    intros q Hq. rewrite I4, F0; [reflexivity|].
    intros f Hf. unfold output_name. rewrite R0. rewrite S0 in Hf. apply Hq. exact Hf.
  - rewrite (run_bind_raise _ _ _ _ _ Esel). cbn [snd].
    split; [exact S0|]. split; [exact R0|]. intros q _. rewrite F0. reflexivity.
Qed.

(** The outcomes of [add_cov]: the directory cannot be made; [add_vis2cov]
    raises; [add_t3cov] raises, in the state where [self.idir] is the output
    directory; both return and [self.idir] is set back. *)
Lemma add_cov_cases odir s :
  (exists e s0,
     ensure_dir odir s = (Raise e, s0)
     /\ add_cov odir s = (Raise e, s0))
  \/ exists s0,
       ensure_dir odir s = (Ok tt, s0)
       /\ ((exists e s1,
              add_vis2cov odir s0 = (Raise e, s1)
              /\ add_cov odir s = (Raise e, s1))
           \/ (exists e s1 s2,
                 add_vis2cov odir s0 = (Ok tt, s1)
                 /\ add_t3cov odir (redirect odir s1) = (Raise e, s2)
                 /\ add_cov odir s = (Raise e, s2))
           \/ (exists s1 s2,
                 add_vis2cov odir s0 = (Ok tt, s1)
                 /\ add_t3cov odir (redirect odir s1) = (Ok tt, s2)
                 /\ add_cov odir s = (Ok tt, redirect (idir (self s1)) s2))).
Proof.
  unfold add_cov.
  destruct (ensure_dir odir s) as [[[]|e0] s0] eqn:E0.
  2: { left. exists e0, s0. split; [reflexivity|].
       rewrite (run_bind_raise _ _ _ _ _ E0). reflexivity. }
  right. exists s0. split; [reflexivity|].
  rewrite (run_bind _ _ _ _ _ E0).
  destruct (add_vis2cov odir s0) as [[[]|e1] s1] eqn:E1.
  - rewrite (run_bind _ _ _ _ _ E1).
    rewrite (run_bind get_self _ s1 (self s1) s1 eq_refl). cbv zeta.
    rewrite (run_bind (set_idir odir) _ s1 tt (redirect odir s1) eq_refl).
    destruct (add_t3cov odir (redirect odir s1)) as [[[]|e2] s2] eqn:E2.
    + right. right. exists s1, s2. split; [reflexivity|]. split; [exact E2|].
      rewrite (run_bind _ _ _ _ _ E2). reflexivity.
    + right. left. exists e2, s1, s2. split; [reflexivity|]. split; [exact E2|].
      rewrite (run_bind_raise _ _ _ _ _ E2). reflexivity.
  - left. exists e1, s1. split; [reflexivity|].
    rewrite (run_bind_raise _ _ _ _ _ E1). reflexivity.
Qed.

Lemma self_redirect_back s s1 s2 odir :
  self s1 = self s -> self s2 = self (redirect odir s1) ->
  self (redirect (idir (self s1)) s2) = self s.
Proof.
  intros H1 H2. unfold redirect, set_idir. simpl. rewrite H2.
  unfold redirect, set_idir. simpl. rewrite !H1.
  destruct (self s). reflexivity.
Qed.

Lemma add_cov_keeps_fields (odir : string) (s : state) :
  selection_fields (snd (add_cov odir s)) = selection_fields s
  /\ observables (self (snd (add_cov odir s))) = observables (self s)
  /\ (idir (self (snd (add_cov odir s))) = idir (self s)
      \/ idir (self (snd (add_cov odir s))) = odir)
  /\ (forall s', add_cov odir s = (Ok tt, s') -> self s' = self s).
Proof.
  destruct (add_cov_cases odir s) as [(e & s0 & E0 & E)|(s0 & E0 & Hcases)];
    pose proof (preserves_self_ensure_dir odir s) as P0; rewrite E0 in P0;
    simpl in P0.
  { rewrite E. unfold selection_fields. simpl snd. rewrite P0.
    split; [reflexivity|]. split; [reflexivity|]. split; [left; reflexivity|].
    intros s' H. discriminate. }
  destruct Hcases as [(e & s1 & E1 & E)|[(e & s1 & s2 & E1 & E2 & E)|(s1 & s2 & E1 & E2 & E)]];
    pose proof (preserves_self_add_vis2cov odir s0) as P1;
    rewrite E1 in P1; simpl in P1; rewrite E; unfold selection_fields; simpl snd.
  - rewrite P1, P0.
    split; [reflexivity|]. split; [reflexivity|]. split; [left; reflexivity|].
    intros s' H. discriminate.
  - pose proof (preserves_self_add_t3cov odir (redirect odir s1)) as P2.
    rewrite E2 in P2. simpl in P2.
    rewrite P2. simpl. rewrite P1, P0.
    split; [reflexivity|]. split; [reflexivity|]. split; [right; reflexivity|].
    intros s' H. discriminate.
  - pose proof (preserves_self_add_t3cov odir (redirect odir s1)) as P2.
    rewrite E2 in P2. simpl in P2.
    assert (Hback : self (redirect (idir (self s1)) s2) = self s).
    { apply (self_redirect_back s s1 s2 odir); [rewrite P1; exact P0 | exact P2]. }
    rewrite Hback.
    split; [reflexivity|]. split; [reflexivity|]. split; [left; reflexivity|].
    intros s' H. injection H as <-. exact Hback.
Qed.

(** [add_vis2cov] and [add_t3cov] (lines 124-231) assign no field of the
    object, whether they return or raise.  [add_cov] (lines 233-256) assigns
    [idir] only: when it returns every field is as before the call, and when
    it raises [idir] is either unchanged or the output directory. *)
Theorem methods_keep_fields (odir : string) (s : state) :
  self (snd (add_vis2cov odir s)) = self s
  /\ self (snd (add_t3cov odir s)) = self s
  /\ selection_fields (snd (add_cov odir s)) = selection_fields s
  /\ observables (self (snd (add_cov odir s))) = observables (self s)
  /\ (idir (self (snd (add_cov odir s))) = idir (self s)
      \/ idir (self (snd (add_cov odir s))) = odir)
  /\ (forall s', add_cov odir s = (Ok tt, s') -> self s' = self s).
Proof.
  split; [apply preserves_self_add_vis2cov|].
  split; [apply preserves_self_add_t3cov|].
  apply add_cov_keeps_fields.
Qed.

Lemma methods_keep_fields_witness :
  self (snd (add_vis2cov "out/" session_bad_dt3)) = self session_bad_dt3
  /\ self (snd (add_t3cov "out/" session_bad_dt3)) = self session_bad_dt3
  /\ selection_fields (snd (add_cov "out/" session_bad_dt3))
     = selection_fields session_bad_dt3
  /\ observables (self (snd (add_cov "out/" session_bad_dt3)))
     = observables (self session_bad_dt3)
  /\ (idir (self (snd (add_cov "out/" session_bad_dt3))) = idir (self session_bad_dt3)
      \/ idir (self (snd (add_cov "out/" session_bad_dt3))) = "out/")
  /\ (forall s', add_cov "out/" session_bad_dt3 = (Ok tt, s') ->
                 self s' = self session_bad_dt3).
Proof. apply (methods_keep_fields "out/" session_bad_dt3). Defined.


(** Lines 159-164, 217-222 and 249-254.  The methods write only the files
    named by [odir + f], with [f] one of the fits files of the object.  A
    path that names none of these files, under any spelling, names a file
    that holds after the call what it held before, whether the method
    returns or raises. *)
Theorem methods_write_only_outputs (odir : string) (s : state) (p : string) :
  (forall f, f ∈ fitsfiles (self s) ->
             resolve (fs s) p <> resolve (fs s) (odir +:+ f)) ->
  files (fs (snd (add_vis2cov odir s))) !! resolve (fs s) p
    = files (fs s) !! resolve (fs s) p
  /\ files (fs (snd (add_t3cov odir s))) !! resolve (fs s) p
     = files (fs s) !! resolve (fs s) p
  /\ files (fs (snd (add_cov odir s))) !! resolve (fs s) p
     = files (fs s) !! resolve (fs s) p.
Proof.
  intros Hp.
  split; [apply (add_extension_frame vis2cov_file "VIS2COV" odir s); exact Hp|].
  split; [apply (add_extension_frame t3cov_file "T3COV" odir s); exact Hp|].
  destruct (ensure_dir_frame odir s) as (S0 & F0 & R0 & _).
  destruct (add_cov_cases odir s) as [(e & s0 & E0 & E)|(s0 & E0 & Hcases)];
    rewrite E0 in S0, F0, R0; cbn [fst snd] in S0, F0, R0.
  { rewrite E. cbn [snd]. rewrite F0. reflexivity. }
  assert (Hp0 : forall f, f ∈ fitsfiles (self s0) ->
                          resolve (fs s) p <> output_name odir s0 f).
  { intros f Hf. unfold output_name. rewrite R0. apply Hp. rewrite <- S0. exact Hf. }
  destruct (add_extension_frame vis2cov_file "VIS2COV" odir s0) as (S1 & R1 & F1).
  rewrite <- add_vis2cov_eq in S1, R1, F1.
  specialize (F1 _ Hp0). rewrite F0 in F1.
  destruct Hcases as [(e & s1 & E1 & E)|[(e & s1 & s2 & E1 & E2 & E)|(s1 & s2 & E1 & E2 & E)]];
    rewrite E1 in S1, R1, F1; cbn [snd] in S1, R1, F1; rewrite E; cbn [snd].
  - exact F1.
  - rewrite <- F1.
    destruct (add_extension_frame t3cov_file "T3COV" odir (redirect odir s1))
      as (_ & _ & F2).
    rewrite <- add_t3cov_eq, E2 in F2. cbn [snd] in F2. apply F2.
    intros f Hf. unfold output_name. change (fs (redirect odir s1)) with (fs s1).
    rewrite R1. apply Hp0. rewrite <- S1. exact Hf.
  - change (fs (redirect (idir (self s1)) s2)) with (fs s2).
    rewrite <- F1.
    destruct (add_extension_frame t3cov_file "T3COV" odir (redirect odir s1))
      as (_ & _ & F2).
    rewrite <- add_t3cov_eq, E2 in F2. cbn [snd] in F2. apply F2.
    intros f Hf. unfold output_name. change (fs (redirect odir s1)) with (fs s1).
    rewrite R1. apply Hp0. rewrite <- S1. exact Hf.
Qed.

(** The loop over the files returns when every file has its data, its
    covariances and its input file and nothing is refused; in each output
    file the new extension comes right behind the primary extension of the
    input file. *)
Lemma add_extension_spec per_file name odir s dl :
  selected_data_list s = (Ok dl, s) ->
  files_ready odir s ->
  (forall exps, exps ∈ dl -> exists covs, per_file exps = Ok covs) ->
  exists s',
    add_extension per_file name odir s = (Ok tt, s')
    /\ self s' = self s
    /\ resolve (fs s') = resolve (fs s)
    /\ faults (fs s') = []
    /\ dirs (fs s') = dirs (fs (snd (ensure_dir odir s)))
    /\ (forall q, is_Some (files (fs s) !! q) -> is_Some (files (fs s') !! q))
    /\ forall i f, fitsfiles (self s) !! i = Some f ->
         exists exps covs primary rest,
           dl !! i = Some exps
           /\ per_file exps = Ok covs
           /\ files (fs s) !! input_name s f = Some (primary :: rest)
           /\ files (fs s') !! output_name odir s f
              = Some (primary :: cov_hdu name s covs :: rest).
Proof.
  intros Hsel (Hfaults & Hodir & Hdir & Hnd & Hclob & Hin) Hcov.
  pose proof (selected_data_list_length s dl s Hsel) as Hlen.
  destruct (ensure_dir_frame odir s) as (S0 & F0 & R0 & _ & Hok).
  destruct (Hok Hfaults Hodir) as (Hr & Hfaults0). clear Hok.
  destruct (ensure_dir odir s) as [r0 s0] eqn:E0. cbn [fst snd] in *. subst r0.
  assert (Hsel0 : selected_data_list s0 = (Ok dl, s0)).
  { apply (selected_data_list_transfer s s0 dl); [|exact Hsel].
    unfold selection_fields. rewrite S0. reflexivity. }
  unfold add_extension.
  rewrite (run_bind _ _ _ _ _ E0), (run_bind _ _ _ _ _ Hsel0).
  rewrite (run_bind get_self _ s0 (self s0) s0 eq_refl).
  rewrite S0.
  set (P := fun k (t : state) =>
              self t = self s
              /\ resolve (fs t) = resolve (fs s)
              /\ faults (fs t) = []
              /\ dirs (fs t) = dirs (fs s0)
              /\ (forall q, is_Some (files (fs s) !! q) -> is_Some (files (fs t) !! q))
              /\ (forall j f, j < k -> fitsfiles (self s) !! j = Some f ->
                    exists exps covs primary rest,
                      dl !! j = Some exps
                      /\ per_file exps = Ok covs
                      /\ files (fs s) !! input_name s f = Some (primary :: rest)
                      /\ files (fs t) !! output_name odir s f
                         = Some (primary :: cov_hdu name s covs :: rest))
              /\ (forall q, (forall j f, j < k -> fitsfiles (self s) !! j = Some f ->
                                         q <> output_name odir s f) ->
                            files (fs t) !! q = files (fs s) !! q)).
  destruct (for_eachM_seq_invariant P (file_step per_file name odir dl)
              (length (fitsfiles (self s))) 0 s0) as (s' & Hloop & HP).
  - unfold P. split; [exact S0|]. split; [exact R0|]. split; [exact Hfaults0|].
    split; [reflexivity|].
    split; [intros q Hq; rewrite F0; exact Hq|].
    split; [intros j f Hj; lia|].
    intros q _. rewrite F0. reflexivity.
  - intros k t Hk (St & Rt & Ft & Dt & Hgrow & Hdone & Hrest).
    destruct (lookup_lt_is_Some_2 (fitsfiles (self s)) k) as [f Hf]; [lia|].
    destruct (lookup_lt_is_Some_2 dl k) as [exps Hexps]; [lia|].
    destruct (Hcov exps) as [covs Hc]; [eapply list_elem_of_lookup_2; exact Hexps|].
    assert (Hfin : f ∈ fitsfiles (self s)) by (eapply list_elem_of_lookup_2; exact Hf).
    destruct (Hin f Hfin) as (primary & rest & Hh).
    assert (Hout : forall j f', fitsfiles (self s) !! j = Some f' ->
                     output_name odir s f' = output_name odir s f -> j = k).
    { intros j f' Hf' Heq.
      apply (NoDup_lookup _ j k (output_name odir s f) Hnd).
      - rewrite list_lookup_fmap, Hf'. simpl. rewrite Heq. reflexivity.
      - rewrite list_lookup_fmap, Hf. reflexivity. }
    assert (Hread : files (fs t) !! input_name t f = Some (primary :: rest)).
    { unfold input_name. rewrite St, Rt. fold (input_name s f).
      rewrite Hrest; [exact Hh|].
      intros j f' Hj Hf' Heq.
      apply (Hclob f' f); [eapply list_elem_of_lookup_2; exact Hf' | exact Hfin | | ].
      - intros ->. pose proof (Hout j f Hf' eq_refl). lia.
      - symmetry. exact Heq. }
    assert (Hft : fitsfiles (self t) !! k = Some f) by (rewrite St; exact Hf).
    assert (Hde : dir_exists (fs t) (odir +:+ f) = true).
    { specialize (Hdir f Hfin). unfold dir_exists in *.
      rewrite Dt, Rt, <- R0. exact Hdir. }
    destruct (file_step_ok per_file name odir dl k t exps covs f primary rest
                Ft Hexps Hc Hft Hread Hde) as (t' & Hstep & St' & Dt' & Rt' & Ft' & Fl').
    assert (Hname : output_name odir t f = output_name odir s f)
      by (unfold output_name; rewrite Rt; reflexivity).
    assert (Hhdu : cov_hdu name t covs = cov_hdu name s covs)
      by (unfold cov_hdu; rewrite St; reflexivity).
    rewrite Hname, Hhdu in Fl'.
    exists t'. split; [exact Hstep|].
    unfold P. split; [rewrite St'; exact St|]. split; [rewrite Rt'; exact Rt|].
    split; [exact Ft'|]. split; [rewrite Dt'; exact Dt|]. split; [|split].
    + intros q Hq. rewrite Fl'. apply lookup_insert_is_Some'. right.
      apply Hgrow. exact Hq.
    + intros j f' Hj Hf'. rewrite Fl'.
      destruct (decide (output_name odir s f = output_name odir s f')) as [Heq|Hne].
      * assert (j = k) by (apply (Hout j f' Hf'); symmetry; exact Heq). subst j.
        assert (f' = f) by congruence. subst f'.
        exists exps, covs, primary, rest.
        split; [exact Hexps|]. split; [exact Hc|]. split; [exact Hh|].
        apply lookup_insert_eq.
      * rewrite lookup_insert_ne by exact Hne.
        apply Hdone; [|exact Hf'].
        destruct (Nat.eq_dec j k) as [->|]; [|lia].
        exfalso. apply Hne. congruence.
    + intros q Hq. rewrite Fl'.
      rewrite lookup_insert_ne.
      * apply Hrest. intros j f' Hj. apply Hq. lia.
      * intros Heq. apply (Hq k f); [lia | exact Hf | symmetry; exact Heq].
  - exists s'. split; [exact Hloop|].
    destruct HP as (Ss & Rs & Fs & Ds & Hgrow & Hdone & _).
    split; [exact Ss|]. split; [exact Rs|]. split; [exact Fs|].
    split; [exact Ds|]. split; [exact Hgrow|].
    intros i f Hf. apply (Hdone i f); [|exact Hf].
    apply lookup_lt_Some in Hf. simpl. exact Hf.
Qed.

(** [add_vis2cov] and [add_t3cov], lines 124-231.  When the operating
    system refuses no call, the output directory is not the empty path, the
    directory of every output file is there once [odir] is made, the output
    files are distinct, none of them is the input file of another fits file,
    every input file exists, the data hold one entry per file and the
    covariances can be computed, each method returns and assigns no field.
    The file [odir + f] then holds the primary extension of [idir + f], then
    one extension, named [VIS2COV] or [T3COV], that carries the instrument and
    the covariances of the file, then the other extensions of [idir + f]:
    the new extension is not the last one when the input has extensions of
    its own. *)
Theorem methods_append_extension (odir : string) (s : state)
    (dl : list (list exposure)) :
  selected_data_list s = (Ok dl, s) ->
  files_ready odir s ->
  ((forall exps, exps ∈ dl -> exists covs, vis2cov_file exps = Ok covs) ->
   exists s',
     add_vis2cov odir s = (Ok tt, s')
     /\ self s' = self s
     /\ forall i f, fitsfiles (self s) !! i = Some f ->
          exists exps covs primary rest,
            dl !! i = Some exps
            /\ vis2cov_file exps = Ok covs
            /\ files (fs s) !! resolve (fs s) (idir (self s) +:+ f)
               = Some (primary :: rest)
            /\ files (fs s') !! resolve (fs s) (odir +:+ f)
               = Some (primary
                       :: {| extname := "VIS2COV";
                             insname := inst (self s);
                             image := covs |}
                       :: rest))
  /\ ((forall exps, exps ∈ dl -> exists covs, t3cov_file exps = Ok covs) ->
      exists s',
        add_t3cov odir s = (Ok tt, s')
        /\ self s' = self s
        /\ forall i f, fitsfiles (self s) !! i = Some f ->
             exists exps covs primary rest,
               dl !! i = Some exps
               /\ t3cov_file exps = Ok covs
               /\ files (fs s) !! resolve (fs s) (idir (self s) +:+ f)
                  = Some (primary :: rest)
               /\ files (fs s') !! resolve (fs s) (odir +:+ f)
                  = Some (primary
                          :: {| extname := "T3COV";
                                insname := inst (self s);
                                image := covs |}
                          :: rest)).
Proof.
  intros Hsel Hready. split; intros Hcov.
  - destruct (add_extension_spec vis2cov_file "VIS2COV" odir s dl Hsel Hready Hcov)
      as (s' & E & S' & _ & _ & _ & _ & H).
    exists s'. split; [exact E|]. split; [exact S'|]. exact H.
  - destruct (add_extension_spec t3cov_file "T3COV" odir s dl Hsel Hready Hcov)
      as (s' & E & S' & _ & _ & _ & _ & H).
    exists s'. split; [exact E|]. split; [exact S'|]. exact H.
Qed.

Lemma NoDup_map_inj_on {A B : Type} (g : A -> B) (l : list A) (x y : A) :
  NoDup (map g l) -> x ∈ l -> y ∈ l -> g x = g y -> x = y.
Proof.
  intros Hnd Hx Hy Heq.
  apply list_elem_of_lookup_1 in Hx. destruct Hx as [i Hi].
  apply list_elem_of_lookup_1 in Hy. destruct Hy as [j Hj].
  assert (i = j).
  { apply (NoDup_lookup _ i j (g x) Hnd).
    - rewrite list_lookup_fmap, Hi. reflexivity.
    - rewrite list_lookup_fmap, Hj. simpl. rewrite Heq. reflexivity. }
  subst j. congruence.
Qed.

Lemma dir_exists_same w w' p :
  resolve w' = resolve w -> dirs w' = dirs w -> dir_exists w' p = dir_exists w p.
Proof. intros R D. unfold dir_exists. rewrite R, D. reflexivity. Qed.

(** What [add_cov] needs is still there for [add_vis2cov], which starts by
    making the output directory once more. *)
Lemma files_ready_after_ensure odir s s0 :
  files_ready odir s -> ensure_dir odir s = (Ok tt, s0) ->
  files_ready odir s0 /\ ensure_dir odir s0 = (Ok tt, s0).
Proof.
  intros (Hfaults & Hodir & Hdir & Hnd & Hclob & Hin) E0.
  destruct (ensure_dir_frame odir s) as (S0 & F0 & R0 & _ & Hok).
  destruct (Hok Hfaults Hodir) as (_ & Hfaults0). clear Hok.
  rewrite E0 in S0, F0, R0, Hfaults0, Hdir. cbn [fst snd] in *.
  assert (E1 : ensure_dir odir s0 = (Ok tt, s0)).
  { apply (ensure_dir_again odir s s0 E0 Hodir s0); [reflexivity | reflexivity | auto]. }
  split; [|exact E1].
  split; [exact Hfaults0|]. split; [exact Hodir|].
  split; [rewrite E1, S0; exact Hdir|].
  unfold output_name, input_name in *. rewrite S0, F0, R0.
  split; [exact Hnd|]. split; [exact Hclob | exact Hin].
Qed.

(** [add_cov], lines 233-256.  Under the same conditions, with both kinds of
    covariances computable, [add_cov] returns with every field as before.
    [add_t3cov] reads the file that [add_vis2cov] wrote, so the file
    [odir + f] holds the primary extension of [idir + f], then [T3COV], then
    [VIS2COV], then the other extensions of [idir + f]. *)
Theorem add_cov_appends_both (odir : string) (s : state)
    (dl : list (list exposure)) :
  selected_data_list s = (Ok dl, s) ->
  files_ready odir s ->
  (forall exps, exps ∈ dl -> exists covs, vis2cov_file exps = Ok covs) ->
  (forall exps, exps ∈ dl -> exists covs, t3cov_file exps = Ok covs) ->
  exists s',
    add_cov odir s = (Ok tt, s')
    /\ self s' = self s
    /\ forall i f, fitsfiles (self s) !! i = Some f ->
         exists exps cvis2 ct3 primary rest,
           dl !! i = Some exps
           /\ vis2cov_file exps = Ok cvis2
           /\ t3cov_file exps = Ok ct3
           /\ files (fs s) !! resolve (fs s) (idir (self s) +:+ f)
              = Some (primary :: rest)
           /\ files (fs s') !! resolve (fs s) (odir +:+ f)
              = Some (primary
                      :: {| extname := "T3COV";
                            insname := inst (self s);
                            image := ct3 |}
                      :: {| extname := "VIS2COV";
                            insname := inst (self s);
                            image := cvis2 |}
                      :: rest).
Proof.
  intros Hsel Hready Hv Ht.
  pose proof Hready as (Hfaults & Hodir & _ & Hnd & _ & _).
  destruct (ensure_dir_frame odir s) as (S0 & F0 & R0 & _ & Hok).
  destruct (Hok Hfaults Hodir) as (Hr & _). clear Hok.
  destruct (ensure_dir odir s) as [r0 s0] eqn:E0. cbn [fst snd] in *. subst r0.
  destruct (files_ready_after_ensure odir s s0 Hready E0) as (Hready0 & E0').
  (* first step: VIS2COV, from [s0] *)
  destruct (add_extension_spec vis2cov_file "VIS2COV" odir s0 dl)
    as (s1 & E1 & S1 & R1 & Fa1 & D1 & G1 & H1); [|exact Hready0|exact Hv|].
  { apply (selected_data_list_transfer s s0 dl); [|exact Hsel].
    unfold selection_fields. rewrite S0. reflexivity. }
  rewrite <- add_vis2cov_eq in E1. rewrite E0' in D1. cbn [snd] in D1.
  (* second step: T3COV, from [s1] with [idir] redirected *)
  assert (Sr : fitsfiles (self (redirect odir s1)) = fitsfiles (self s))
    by (simpl; rewrite S1, S0; reflexivity).
  assert (Er : ensure_dir odir (redirect odir s1) = (Ok tt, redirect odir s1)).
  { apply (ensure_dir_again odir s s0 E0 Hodir).
    - exact R1.
    - change (dirs (fs s0) ⊆ dirs (fs s1)). rewrite D1. reflexivity.
    - apply G1. }
  assert (Hout : forall f, output_name odir (redirect odir s1) f = output_name odir s f).
  { intros f. unfold output_name. change (fs (redirect odir s1)) with (fs s1).
    rewrite R1, R0. reflexivity. }
  destruct (add_extension_spec t3cov_file "T3COV" odir (redirect odir s1) dl)
    as (s2 & E2 & S2 & R2 & _ & _ & _ & H2); [| |exact Ht|].
  { apply (selected_data_list_transfer s (redirect odir s1) dl); [|exact Hsel].
    unfold selection_fields. simpl. rewrite S1, S0. reflexivity. }
  { destruct Hready0 as (_ & _ & Hdir0 & _).
    split; [exact Fa1|]. split; [exact Hodir|].
    split.
    { rewrite Er, Sr. intros f Hf.
      change (fs (redirect odir s1)) with (fs s1).
      rewrite (dir_exists_same (fs s0) (fs s1) _ R1 D1).
      rewrite E0', S0 in Hdir0. apply Hdir0. exact Hf. }
    rewrite Sr.
    split.
    { rewrite (map_ext _ _ Hout). exact Hnd. }
    split.
    { intros f f' Hf Hf' Hne Heq. apply Hne.
      apply (NoDup_map_inj_on (output_name odir s) _ f f' Hnd Hf Hf').
      rewrite <- !Hout. exact Heq. }
    intros f Hf. apply list_elem_of_lookup_1 in Hf. destruct Hf as [i Hf].
    rewrite <- S0 in Hf.
    destruct (H1 i f Hf) as (exps & covs & primary & rest & _ & _ & _ & Hw).
    exists primary. eexists.
    change (input_name (redirect odir s1) f) with (output_name odir s1 f).
    assert (Hn : output_name odir s1 f = output_name odir s0 f)
      by (unfold output_name; rewrite R1; reflexivity).
    change (fs (redirect odir s1)) with (fs s1). rewrite Hn. exact Hw. }
  rewrite <- add_t3cov_eq in E2.
  exists (redirect (idir (self s1)) s2).
  assert (Hback : self (redirect (idir (self s1)) s2) = self s).
  { apply (self_redirect_back s s1 s2 odir); [rewrite S1; exact S0 | exact S2]. }
  split.
  { unfold add_cov.
    rewrite (run_bind _ _ _ _ _ E0), (run_bind _ _ _ _ _ E1).
    rewrite (run_bind get_self _ s1 (self s1) s1 eq_refl). cbv zeta.
    rewrite (run_bind (set_idir odir) _ s1 tt (redirect odir s1) eq_refl).
    rewrite (run_bind _ _ _ _ _ E2). reflexivity. }
  split; [exact Hback|].
  intros i f Hf.
  assert (Hf0 : fitsfiles (self s0) !! i = Some f) by (rewrite S0; exact Hf).
  assert (Hfr : fitsfiles (self (redirect odir s1)) !! i = Some f)
    by (rewrite Sr; exact Hf).
  destruct (H1 i f Hf0) as (exps & cvis2 & primary & rest & Dl1 & V1 & I1 & W1).
  destruct (H2 i f Hfr) as (exps' & ct3 & primary' & rest' & Dl2 & V2 & I2 & W2).
  assert (exps' = exps) by congruence. subst exps'.
  change (input_name (redirect odir s1) f) with (output_name odir s1 f) in I2.
  change (fs (redirect odir s1)) with (fs s1) in I2.
  assert (Hn : output_name odir s1 f = output_name odir s0 f)
    by (unfold output_name; rewrite R1; reflexivity).
  rewrite Hn, W1 in I2. injection I2 as <- <-.
  exists exps, cvis2, ct3, primary, rest.
  split; [exact Dl1|]. split; [exact V1|]. split; [exact V2|].
  split.
  { unfold input_name in I1. rewrite S0, F0, R0 in I1. exact I1. }
  change (fs (redirect (idir (self s1)) s2)) with (fs s2).
  rewrite Hout in W2. unfold output_name in W2. rewrite W2.
  unfold cov_hdu. simpl. rewrite S1, S0. reflexivity.
Qed.

(** When [add_cov] raises (lines 233-256), the exception comes from one of
    three places.  From [os.makedirs] at line 247: no step has run, and every
    field and every file is as before.  From [add_vis2cov]: [self.idir] is as
    before the call.  From [add_t3cov]: [self.idir] is left at the output
    directory, since the assignment that restores it (line 254) is not
    reached. *)
Theorem add_cov_raise_idir (odir : string) (s s' : state) (e : exn) :
  add_cov odir s = (Raise e, s') ->
  (ensure_dir odir s = (Raise e, s')
   /\ e = OSError
   /\ self s' = self s
   /\ files (fs s') = files (fs s))
  \/ exists s0,
       ensure_dir odir s = (Ok tt, s0)
       /\ ((add_vis2cov odir s0 = (Raise e, s')
            /\ idir (self s') = idir (self s))
           \/ (exists s1,
                 add_vis2cov odir s0 = (Ok tt, s1)
                 /\ add_t3cov odir (redirect odir s1) = (Raise e, s')
                 /\ idir (self s') = odir)).
Proof.
  intros H.
  destruct (ensure_dir_frame odir s) as (P0 & F0 & _ & Hres & _).
  destruct (add_cov_cases odir s) as [(e0 & s0 & E0 & E)|(s0 & E0 & Hcases)];
    rewrite E0 in P0, F0, Hres; cbn [fst snd] in P0, F0, Hres.
  { left. rewrite E in H. injection H as -> ->.
    split; [exact E0|].
    split; [destruct Hres as [Hres|Hres]; [discriminate | congruence]|].
    split; [exact P0 | exact F0]. }
  right. exists s0. split; [exact E0|].
  destruct Hcases as [(e1 & s1 & E1 & E)|[(e2 & s1 & s2 & E1 & E2 & E)|(s1 & s2 & E1 & E2 & E)]].
  - left. rewrite E in H. injection H as -> ->.
    split; [exact E1|].
    pose proof (preserves_self_add_vis2cov odir s0) as P1.
    rewrite E1 in P1. simpl in P1. rewrite P1, P0. reflexivity.
  - right. rewrite E in H. injection H as -> ->.
    exists s1. split; [exact E1|]. split; [exact E2|].
    pose proof (preserves_self_add_t3cov odir (redirect odir s1)) as P2.
    rewrite E2 in P2. simpl in P2. rewrite P2. reflexivity.
  - rewrite E in H. discriminate.
Qed.

Lemma session_selected :
  selected_data_list session_oifits = (Ok [[exposure_a; exposure_b]], session_oifits).
Proof. vm_compute. reflexivity. Qed.

Lemma session_covs (exps : list exposure) :
  exps ∈ [[exposure_a; exposure_b]] ->
  (exists covs, vis2cov_file exps = Ok covs)
  /\ (exists covs, t3cov_file exps = Ok covs).
Proof.
  intros H. apply list_elem_of_singleton in H. subst exps.
  split; eexists; vm_compute; reflexivity.
Qed.

Lemma session_files_ready : files_ready "out/" session_oifits.
Proof.
  split; [reflexivity|]. split; [discriminate|].
  split.
  { intros f Hf. apply list_elem_of_singleton in Hf. subst f.
    vm_compute. reflexivity. }
  split; [apply NoDup_singleton|].
  split.
  { intros f f' Hf Hf' Hne. exfalso.
    apply list_elem_of_singleton in Hf. apply list_elem_of_singleton in Hf'.
    congruence. }
  intros f Hf. apply list_elem_of_singleton in Hf. subst f.
  eexists. eexists. vm_compute. reflexivity.
Qed.

Lemma methods_write_only_outputs_witness :
  files (fs (snd (add_vis2cov "out/" session))) !! "in/a.fits"
    = files (fs session) !! "in/a.fits"
  /\ files (fs (snd (add_t3cov "out/" session))) !! "in/a.fits"
     = files (fs session) !! "in/a.fits"
  /\ files (fs (snd (add_cov "out/" session))) !! "in/a.fits"
     = files (fs session) !! "in/a.fits".
Proof.
  apply (methods_write_only_outputs "out/" session "in/a.fits").
  intros f Hf. apply list_elem_of_singleton in Hf. subst f.
  vm_compute. discriminate.
Defined.

(** With an output directory that is the input directory under another
    spelling, the method replaces its own input file. *)
Example add_vis2cov_aliased_input :
  map extname
    (default [] (files (fs (snd (add_vis2cov "./in/" session_dotted))) !! "in/a.fits"))
  = ["PRIMARY"; "VIS2COV"].
Proof. vm_compute. reflexivity. Qed.

Lemma methods_append_extension_witness :
  (exists s',
     add_vis2cov "out/" session_oifits = (Ok tt, s')
     /\ self s' = self session_oifits
     /\ forall i f, fitsfiles (self session_oifits) !! i = Some f ->
          exists exps covs primary rest,
            [[exposure_a; exposure_b]] !! i = Some exps
            /\ vis2cov_file exps = Ok covs
            /\ files (fs session_oifits)
                 !! resolve (fs session_oifits) (idir (self session_oifits) +:+ f)
               = Some (primary :: rest)
            /\ files (fs s') !! resolve (fs session_oifits) ("out/" +:+ f)
               = Some (primary
                       :: {| extname := "VIS2COV";
                             insname := inst (self session_oifits);
                             image := covs |}
                       :: rest))
  /\ (exists s',
        add_t3cov "out/" session_oifits = (Ok tt, s')
        /\ self s' = self session_oifits
        /\ forall i f, fitsfiles (self session_oifits) !! i = Some f ->
             exists exps covs primary rest,
               [[exposure_a; exposure_b]] !! i = Some exps
               /\ t3cov_file exps = Ok covs
               /\ files (fs session_oifits)
                    !! resolve (fs session_oifits) (idir (self session_oifits) +:+ f)
                  = Some (primary :: rest)
               /\ files (fs s') !! resolve (fs session_oifits) ("out/" +:+ f)
                  = Some (primary
                          :: {| extname := "T3COV";
                                insname := inst (self session_oifits);
                                image := covs |}
                          :: rest)).
Proof.
  destruct (methods_append_extension "out/" session_oifits [[exposure_a; exposure_b]]
              session_selected session_files_ready) as [Hv Ht].
  split.
  - apply Hv. intros exps H. apply (session_covs exps H).
  - apply Ht. intros exps H. apply (session_covs exps H).
Defined.

(** The new extension is written before the extension the input had. *)
Example add_vis2cov_extension_order :
  map extname
    (default [] (files (fs (snd (add_vis2cov "out/" session_oifits))) !! "out/a.fits"))
  = ["PRIMARY"; "VIS2COV"; "OI_VIS2"].
Proof. vm_compute. reflexivity. Qed.

Lemma add_cov_appends_both_witness :
  exists s',
    add_cov "out/" session_oifits = (Ok tt, s')
    /\ self s' = self session_oifits
    /\ forall i f, fitsfiles (self session_oifits) !! i = Some f ->
         exists exps cvis2 ct3 primary rest,
           [[exposure_a; exposure_b]] !! i = Some exps
           /\ vis2cov_file exps = Ok cvis2
           /\ t3cov_file exps = Ok ct3
           /\ files (fs session_oifits)
                !! resolve (fs session_oifits) (idir (self session_oifits) +:+ f)
              = Some (primary :: rest)
           /\ files (fs s') !! resolve (fs session_oifits) ("out/" +:+ f)
              = Some (primary
                      :: {| extname := "T3COV";
                            insname := inst (self session_oifits);
                            image := ct3 |}
                      :: {| extname := "VIS2COV";
                            insname := inst (self session_oifits);
                            image := cvis2 |}
                      :: rest).
Proof.
  apply (add_cov_appends_both "out/" session_oifits [[exposure_a; exposure_b]]).
  - exact session_selected.
  - exact session_files_ready.
  - intros exps H. apply (session_covs exps H).
  - intros exps H. apply (session_covs exps H).
Defined.

Example add_cov_extension_order :
  map extname
    (default [] (files (fs (snd (add_cov "out/" session_oifits))) !! "out/a.fits"))
  = ["PRIMARY"; "T3COV"; "VIS2COV"; "OI_VIS2"].
Proof. vm_compute. reflexivity. Qed.

(** With the empty path for output directory the first call is refused. *)
Example add_cov_empty_odir :
  fst (add_cov "" session) = Raise OSError
  /\ fst (add_vis2cov "" session) = Raise OSError
  /\ fst (add_t3cov "" session) = Raise OSError.
Proof. repeat split; vm_compute; reflexivity. Qed.

Lemma add_cov_raise_idir_witness :
  (ensure_dir "out/" session_bad_dt3
   = (Raise ValueError, snd (add_cov "out/" session_bad_dt3))
   /\ ValueError = OSError
   /\ self (snd (add_cov "out/" session_bad_dt3)) = self session_bad_dt3
   /\ files (fs (snd (add_cov "out/" session_bad_dt3))) = files (fs session_bad_dt3))
  \/ exists s0,
       ensure_dir "out/" session_bad_dt3 = (Ok tt, s0)
       /\ ((add_vis2cov "out/" s0
            = (Raise ValueError, snd (add_cov "out/" session_bad_dt3))
            /\ idir (self (snd (add_cov "out/" session_bad_dt3)))
               = idir (self session_bad_dt3))
           \/ (exists s1,
                 add_vis2cov "out/" s0 = (Ok tt, s1)
                 /\ add_t3cov "out/" (redirect "out/" s1)
                    = (Raise ValueError, snd (add_cov "out/" session_bad_dt3))
                 /\ idir (self (snd (add_cov "out/" session_bad_dt3))) = "out/")).
Proof.
  apply (add_cov_raise_idir "out/" session_bad_dt3).
  vm_compute. reflexivity.
Defined.

(** ** Files that lack the selected instrument (lines 144-145, 195-196) *)

Lemma ensure_dir_ok_nonempty odir s s0 :
  ensure_dir odir s = (Ok tt, s0) -> odir <> "".
Proof.
  intros E ->. revert E.
  unfold ensure_dir, os_path_exists, os_makedirs, mbind, M_bind.
  rewrite (bool_decide_eq_true_2 ("" = "") eq_refl). cbn [negb andb].
  discriminate.
Qed.

Lemma add_extension_mismatch per_file name odir s :
  length (inst_list (self s)) <= length (data_list (self s)) ->
  length (np_where_eq (inst_list (self s)) (inst (self s)) 0)
    <> length (fitsfiles (self s)) ->
  exists e s',
    add_extension per_file name odir s = (Raise e, s')
    /\ self s' = self s
    /\ files (fs s') = files (fs s)
    /\ ((fst (ensure_dir odir s) = Ok tt /\ e = UserWarning)
        \/ (fst (ensure_dir odir s) = Raise OSError /\ e = OSError)).
Proof.
  intros Hlen Hne.
  destruct (ensure_dir_frame odir s) as (S0 & F0 & _ & Hres & _).
  unfold add_extension.
  destruct (ensure_dir odir s) as [[[]|e0] s0] eqn:E0; cbn [fst snd] in *.
  2: { exists e0, s0. rewrite (run_bind_raise _ _ _ _ _ E0).
       split; [reflexivity|]. split; [exact S0|]. split; [exact F0|].
       right. destruct Hres as [Hres|Hres]; [discriminate|].
       split; [exact Hres | congruence]. }
  exists UserWarning, s0.
  split; [|split; [exact S0|split; [exact F0|left; split; reflexivity]]].
  rewrite (run_bind _ _ _ _ _ E0).
  apply run_bind_raise.
  rewrite selected_data_list_spec by (rewrite S0; exact Hlen).
  cbv zeta. rewrite S0.
  destruct (Nat.eqb_spec (length (fitsfiles (self s)))
              (length (data_of_inst (inst_list (self s)) (data_list (self s))
                         (inst (self s))))) as [E|E]; [|reflexivity].
  exfalso. apply Hne. rewrite E.
  rewrite <- (map_where_eq_data _ _ [] (data_list (self s)) Hlen).
  rewrite length_map. reflexivity.
Qed.

(** Lines 136-145, 187-196 and 246-249.  When the number of opened
    instrument entries equal to the selected instrument differs from the
    number of fits files, [add_vis2cov], [add_t3cov] and [add_cov] raise
    before any file is read or written, and leave every field, [idir]
    included, as it was.  The output directory is made first (lines 136-137):
    when that call returns the exception is [UserWarning], and when it raises
    the exception is the [OSError] of that call.  It returns when the
    operating system refuses no call and [odir] is not the empty path. *)
Theorem instrument_count_mismatch (odir : string) (s : state) :
  length (inst_list (self s)) <= length (data_list (self s)) ->
  length (np_where_eq (inst_list (self s)) (inst (self s)) 0)
    <> length (fitsfiles (self s)) ->
  forall m, m = add_vis2cov \/ m = add_t3cov \/ m = add_cov ->
    exists e s',
      m odir s = (Raise e, s')
      /\ self s' = self s
      /\ files (fs s') = files (fs s)
      /\ ((fst (ensure_dir odir s) = Ok tt /\ e = UserWarning)
          \/ (fst (ensure_dir odir s) = Raise OSError /\ e = OSError))
      /\ (faults (fs s) = [] -> odir <> "" -> e = UserWarning).
Proof.
  intros Hlen Hne m Hm.
  assert (Hclean : forall e,
            (fst (ensure_dir odir s) = Ok tt /\ e = UserWarning)
            \/ (fst (ensure_dir odir s) = Raise OSError /\ e = OSError) ->
            faults (fs s) = [] -> odir <> "" -> e = UserWarning).
  { intros e [[_ He]|[Hr _]] Hf Ho; [exact He|].
    destruct (ensure_dir_frame odir s) as (_ & _ & _ & _ & Hok).
    destruct (Hok Hf Ho) as [Hr' _]. congruence. }
  destruct Hm as [-> | [-> | ->]].
  - destruct (add_extension_mismatch vis2cov_file "VIS2COV" odir s Hlen Hne)
      as (e & s' & E & S' & F' & He).
    exists e, s'. rewrite add_vis2cov_eq. repeat split; auto.
  - destruct (add_extension_mismatch t3cov_file "T3COV" odir s Hlen Hne)
      as (e & s' & E & S' & F' & He).
    exists e, s'. rewrite add_t3cov_eq. repeat split; auto.
  - destruct (ensure_dir_frame odir s) as (S0 & F0 & _ & Hres & _).
    destruct (add_cov_cases odir s) as [(e0 & s0 & E0 & E)|(s0 & E0 & Hcases)];
      rewrite E0 in S0, F0, Hres; cbn [fst snd] in S0, F0, Hres.
    { assert (He : e0 = OSError)
        by (destruct Hres as [Hres|Hres]; [discriminate | congruence]).
      subst e0.
      assert (Hd : (fst (ensure_dir odir s) = Ok tt /\ OSError = UserWarning)
                   \/ (fst (ensure_dir odir s) = Raise OSError /\ OSError = OSError))
        by (right; rewrite E0; split; reflexivity).
      exists OSError, s0. split; [exact E|]. split; [exact S0|]. split; [exact F0|].
      split; [exact Hd | apply Hclean; exact Hd]. }
    destruct (add_extension_mismatch vis2cov_file "VIS2COV" odir s0)
      as (e & s1 & E1 & S1 & F1 & He).
    { rewrite S0. exact Hlen. }
    { rewrite S0. exact Hne. }
    rewrite <- add_vis2cov_eq in E1.
    assert (E0' : ensure_dir odir s0 = (Ok tt, s0)).
    { apply (ensure_dir_again odir s s0 E0 (ensure_dir_ok_nonempty odir s s0 E0));
        [reflexivity | reflexivity | auto]. }
    rewrite E0' in He. cbn [fst] in He.
    destruct He as [[_ ->] | [He _]]; [|discriminate].
    destruct Hcases as [(e & t1 & C1 & C)|[(e & t1 & t2 & C1 & _)|(t1 & t2 & C1 & _)]];
      [|congruence|congruence].
    rewrite E1 in C1. injection C1 as <- <-.
    exists UserWarning, s1. split; [exact C|].
    split; [rewrite S1; exact S0|]. split; [rewrite F1; exact F0|].
    split; [left; rewrite E0; split; reflexivity | intros _ _; reflexivity].
Qed.

Lemma instrument_count_mismatch_witness :
  exists e s',
    add_cov "out/" session_two_files = (Raise e, s')
    /\ self s' = self session_two_files
    /\ files (fs s') = files (fs session_two_files)
    /\ ((fst (ensure_dir "out/" session_two_files) = Ok tt /\ e = UserWarning)
        \/ (fst (ensure_dir "out/" session_two_files) = Raise OSError /\ e = OSError))
    /\ (faults (fs session_two_files) = [] -> "out/" <> "" -> e = UserWarning).
Proof.
  apply (instrument_count_mismatch "out/" session_two_files).
  - simpl. lia.
  - simpl. lia.
  - right. right. reflexivity.
Defined.

(** The same files when the operating system refuses to make the output
    directory: the exception is that of [os.makedirs], raised before the
    count of the instrument entries is looked at. *)
Example instrument_count_mismatch_refused :
  fst (add_vis2cov "out/" session_refused) = Raise OSError
  /\ fst (add_t3cov "out/" session_refused) = Raise OSError
  /\ fst (add_cov "out/" session_refused) = Raise OSError.
Proof. repeat split; vm_compute; reflexivity. Qed.
(** ** Selection of the instrument and the observables (lines 55-122) *)

Lemma observable_scan_spec keys key dl ww flag :
  (forall w, w ∈ ww -> exists e0 rest, dl !! w = Some (e0 :: rest)) ->
  observable_scan keys key dl ww flag = Ok (flag && key_in_all keys dl ww key).
Proof.
  revert flag. induction ww as [|w ww IH]; intros flag Hww; simpl.
  - rewrite andb_true_r. reflexivity.
  - destruct flag; [|reflexivity].
    destruct (Hww w) as (e0 & rest & Hw); [left|].
    unfold list_getitem. rewrite Hw.
    change (mbind ?f (Ok ?a)) with (f a). cbv beta.
    change ((e0 :: rest) !! 0) with (Some e0). cbv iota.
    change (mbind ?f (Ok ?a)) with (f a). cbv beta.
    rewrite IH by (intros w' Hw'; apply Hww; right; exact Hw').
    destruct (bool_decide (key ∈ keys e0)); reflexivity.
Qed.

Lemma get_observables_state keys s : snd (get_observables keys s) = s.
Proof. reflexivity. Qed.

Lemma get_observables_fields keys s s' :
  observable_fields s = observable_fields s' ->
  fst (get_observables keys s) = fst (get_observables keys s').
Proof.
  unfold observable_fields. intros H. injection H as H1 H2 H3.
  unfold get_observables, get_self, lift, mbind, M_bind. simpl.
  rewrite H1, H2, H3. reflexivity.
Qed.

Lemma get_observables_run (keys : exposure -> list string) (s : state) :
  first_exposures_present s ->
  get_observables keys s = (Ok (available_observables keys s), s).
Proof.
  intros Hpres. unfold get_observables.
  rewrite (run_bind get_self _ s (self s) s eq_refl). cbv zeta.
  unfold lift. f_equal.
  unfold observables_known, range. simpl seq. cbn [for_each].
  unfold list_getitem. simpl lookup.
  unfold mbind, result_bind.
  repeat (cbv beta iota; rewrite (observable_scan_spec keys _ _ _ true Hpres)).
  cbv beta iota. simpl andb.
  unfold available_observables, observables_known. simpl List.filter.
  destruct (key_in_all _ _ _ "vis"), (key_in_all _ _ _ "vis2"),
    (key_in_all _ _ _ "t3"), (key_in_all _ _ _ "kp"); reflexivity.
Qed.

(** [get_observables], lines 83-103.  When every data entry of the selected
    instrument has a first exposure, the method returns, in the order of
    [observables_known], the known observables that are keys of the first
    exposure of every such entry; it changes nothing. *)
Theorem get_observables_spec (keys : exposure -> list string) (s : state) :
  first_exposures_present s ->
  get_observables keys s
  = (Ok (List.filter
           (key_in_all keys (data_list (self s))
              (np_where_eq (inst_list (self s)) (inst (self s)) 0))
           ["vis"; "vis2"; "t3"; "kp"]),
     s).
Proof.
  intros Hpres.
  rewrite (get_observables_run keys s Hpres).
  unfold available_observables, observables_known. reflexivity.
Qed.

Lemma get_observables_spec_witness :
  get_observables session_keys session = (Ok ["vis2"; "t3"], session).
Proof.
  rewrite (get_observables_spec session_keys session).
  - vm_compute. reflexivity.
  - intros w Hw. vm_compute in Hw.
    apply list_elem_of_singleton in Hw. subst w.
    eexists. eexists. reflexivity.
Defined.

Lemma check_loop_spec (valid : list string) :
  forall (suf pre : list string),
    for_each (seq (length pre) (length suf))
      (fun i (_ : unit) =>
         o ← list_getitem (pre ++ suf) i;
         if negb (bool_decide (o ∈ valid)) then Raise UserWarning else Ok tt)
      tt
    = if forallb (fun o => bool_decide (o ∈ valid)) suf
      then Ok tt else Raise UserWarning.
Proof.
  induction suf as [|o suf IH]; intros pre; [reflexivity|].
  simpl length. simpl seq. cbn [for_each forallb].
  unfold list_getitem at 1.
  rewrite lookup_app_r by lia. rewrite Nat.sub_diag. simpl lookup. cbv iota.
  change (mbind ?f (Ok ?a)) with (f a). cbv beta.
  destruct (decide (o ∈ valid)) as [Hin|Hin].
  2: { rewrite !(bool_decide_eq_false_2 _ Hin). reflexivity. }
  rewrite !(bool_decide_eq_true_2 _ Hin). simpl negb. cbv iota. simpl andb.
  specialize (IH (pre ++ [o])).
  rewrite length_app, <- app_assoc in IH. simpl in IH.
  rewrite Nat.add_1_r in IH. exact IH.
Qed.

(** [set_observables], lines 105-122.  When every data entry of the
    selected instrument has a first exposure, a list of observables is
    accepted exactly when all its elements are among the available
    observables: then it is stored as given and nothing else changes;
    otherwise [UserWarning] is raised and nothing changes.  The list
    returned by [get_observables] is always accepted. *)
Theorem set_observables_spec (keys : exposure -> list string) (s : state)
    (obs : list string) :
  first_exposures_present s ->
  (Forall (fun o => o ∈ available_observables keys s) obs ->
   set_observables keys obs s = (Ok tt, snd (assign_observables obs s)))
  /\ (~ Forall (fun o => o ∈ available_observables keys s) obs ->
      set_observables keys obs s = (Raise UserWarning, s))
  /\ set_observables keys (available_observables keys s) s
     = (Ok tt, snd (assign_observables (available_observables keys s) s)).
Proof.
  intros Hpres.
  assert (Hrun : forall l,
            set_observables keys l s
            = if forallb (fun o => bool_decide (o ∈ available_observables keys s)) l
              then (Ok tt, snd (assign_observables l s))
              else (Raise UserWarning, s)).
  { intros l. unfold set_observables.
    rewrite (run_bind _ _ _ _ _ (get_observables_run keys s Hpres)).
    pose proof (check_loop_spec (available_observables keys s) l []) as Hc.
    simpl in Hc. unfold range.
    destruct (forallb _ l).
    - rewrite (run_bind (lift _) _ s tt s) by (unfold lift; rewrite Hc; reflexivity).
      reflexivity.
    - apply run_bind_raise. unfold lift. rewrite Hc. reflexivity. }
  assert (Hiff : forall l,
            forallb (fun o => bool_decide (o ∈ available_observables keys s)) l = true
            <-> Forall (fun o => o ∈ available_observables keys s) l).
  { intros l. rewrite forallb_forall, Forall_forall. split.
    - intros H o Ho. apply (bool_decide_eq_true_1 (o ∈ available_observables keys s)).
      apply H. apply list_elem_of_In. exact Ho.
    - intros H o Ho. apply bool_decide_eq_true_2. apply H.
      apply list_elem_of_In. exact Ho. }
  split; [|split].
  - intros Hall. rewrite Hrun. apply Hiff in Hall. rewrite Hall. reflexivity.
  - intros Hnot. rewrite Hrun.
    destruct (forallb _ obs) eqn:E; [|reflexivity].
    exfalso. apply Hnot. apply Hiff. exact E.
  - rewrite Hrun.
    replace (forallb _ (available_observables keys s)) with true; [reflexivity|].
    symmetry. apply Hiff. apply Forall_forall. auto.
Qed.

Lemma set_observables_spec_witness :
  (Forall (fun o => o ∈ available_observables session_keys session) ["t3"] ->
   set_observables session_keys ["t3"] session
   = (Ok tt, snd (assign_observables ["t3"] session)))
  /\ (~ Forall (fun o => o ∈ available_observables session_keys session) ["t3"] ->
      set_observables session_keys ["t3"] session = (Raise UserWarning, session))
  /\ set_observables session_keys (available_observables session_keys session) session
     = (Ok tt,
        snd (assign_observables (available_observables session_keys session) session)).
Proof.
  apply (set_observables_spec session_keys session ["t3"]).
  intros w Hw. vm_compute in Hw.
  apply list_elem_of_singleton in Hw. subst w.
  eexists. eexists. reflexivity.
Defined.

(** ** The selected instrument is an opened instrument *)

Lemma set_inst_cases i s :
  (i ∈ inst_list (self s) /\ set_inst i s = (Ok tt, snd (assign_inst i s)))
  \/ ((i ∉ inst_list (self s)) /\ set_inst i s = (Raise UserWarning, s)).
Proof.
  unfold set_inst.
  rewrite (run_bind get_self _ s (self s) s eq_refl).
  destruct (bool_decide (i ∈ inst_list (self s))) eqn:E.
  - left. apply bool_decide_eq_true in E. split; [exact E | reflexivity].
  - right. apply bool_decide_eq_false in E. split; [exact E | reflexivity].
Qed.

Lemma keeps_observable_fields_set_observables keys obs :
  keeps observable_fields (set_observables keys obs).
Proof.
  unfold set_observables.
  apply keeps_bind; [intros s; reflexivity | intros valid].
  apply keeps_bind; [apply keeps_lift | intros _].
  intros s. reflexivity.
Qed.

(** Lines 65-81 and 105-256.  The methods keep the selected instrument
    among the opened instruments, whether they return or raise: [set_inst]
    selects an instrument only if it was opened, and no other method assigns
    [inst] or [inst_list]. *)
Theorem inst_selected_invariant (keys : exposure -> list string) (s : state)
    (i odir : string) (obs : list string) :
  inst_selected s ->
  inst_selected (snd (set_inst i s))
  /\ inst_selected (snd (set_observables keys obs s))
  /\ inst_selected (snd (add_vis2cov odir s))
  /\ inst_selected (snd (add_t3cov odir s))
  /\ inst_selected (snd (add_cov odir s)).
Proof.
  unfold inst_selected. intros Hs.
  split.
  { destruct (set_inst_cases i s) as [[Hi E]|[Hi E]]; rewrite E; simpl; assumption. }
  split.
  { pose proof (keeps_observable_fields_set_observables keys obs s) as H.
    unfold keeps, observable_fields in H. cbv beta in H.
    injection H as H1 H2 H3. rewrite H1, H3. exact Hs. }
  destruct (add_cov_keeps_fields odir s) as (H3 & _).
  split; [rewrite preserves_self_add_vis2cov; exact Hs|].
  split; [rewrite preserves_self_add_t3cov; exact Hs|].
  unfold selection_fields in H3. injection H3 as Hff Hil Hdl Hi. rewrite Hil, Hi. exact Hs.
Qed.

Lemma inst_selected_invariant_witness :
  inst_selected (snd (set_inst "GRAVITY" session))
  /\ inst_selected (snd (set_observables session_keys ["kp"] session))
  /\ inst_selected (snd (add_vis2cov "out/" session))
  /\ inst_selected (snd (add_t3cov "out/" session))
  /\ inst_selected (snd (add_cov "out/" session)).
Proof.
  apply (inst_selected_invariant session_keys session "GRAVITY" "out/" ["kp"]).
  unfold inst_selected. simpl. apply list_elem_of_singleton. reflexivity.
Defined.

(** ** The constructor (lines 26-53) *)

Lemma for_eachM_ok_invariant {A : Type} (P : state -> Prop) (xs : list A)
    (body : A -> M unit) :
  (forall x s s', P s -> body x s = (Ok tt, s') -> P s') ->
  forall s s', P s -> for_eachM xs body s = (Ok tt, s') -> P s'.
Proof.
  intros Hstep. induction xs as [|x xs IH]; intros s s' Hs H.
  - simpl in H. injection H as <-. exact Hs.
  - cbn [for_eachM] in H. apply bind_ok_inv in H as ([] & s1 & H1 & H2).
    apply (IH s1 s'); [|exact H2]. apply (Hstep x s s1); assumption.
Qed.

Lemma load_file_inv inst_open idir0 i s s' :
  load_file inst_open idir0 i s = (Ok tt, s') ->
  exists f il dl w',
    fitsfiles (self s) !! i = Some f
    /\ inst_open idir0 f (fs s) = (Ok (il, dl), w')
    /\ idir (self s') = idir (self s)
    /\ fitsfiles (self s') = fitsfiles (self s)
    /\ inst_list (self s') = inst_list (self s) ++ il
    /\ data_list (self s') = data_list (self s) ++ dl.
Proof.
  unfold load_file, get_self, lift, list_getitem, call_loader, extend_lists,
    mbind, M_bind.
  destruct (fitsfiles (self s) !! i) as [f|] eqn:Ef; [|discriminate].
  destruct (inst_open idir0 f (fs s)) as [[[il dl]|e] w'] eqn:E; [|discriminate].
  intros H. injection H as <-.
  exists f, il, dl, w'. repeat split; solve [assumption | reflexivity].
Qed.

Lemma set_observables_ok_inv keys obs s s' :
  set_observables keys obs s = (Ok tt, s') -> s' = snd (assign_observables obs s).
Proof.
  unfold set_observables. intros H.
  apply bind_ok_inv in H as (valid & s1 & H1 & H).
  pose proof (get_observables_state keys s) as Hst. rewrite H1 in Hst. simpl in Hst.
  subst s1.
  apply bind_ok_inv in H as ([] & s2 & H2 & H).
  unfold lift in H2. injection H2 as _ <-.
  unfold assign_observables in *. injection H as <-. reflexivity.
Qed.

(** [__init__], lines 26-53.  With no fits file the constructor raises
    [IndexError].  When it returns, the object holds the directory and the
    file names it was given, the selected instrument is the first instrument
    opened, the selected observables are the ones [get_observables] reports,
    and, if the loader returns as many data entries as instruments, the two
    lists have the same length. *)
Theorem init_spec (inst_open : loader) (keys : exposure -> list string)
    (idir0 : string) (fitsfiles0 : list string) (w : world) :
  (fitsfiles0 = [] ->
   fst (init inst_open keys idir0 fitsfiles0 w) = Raise IndexError)
  /\ forall s,
       init inst_open keys idir0 fitsfiles0 w = (Ok tt, s) ->
       idir (self s) = idir0
       /\ fitsfiles (self s) = fitsfiles0
       /\ inst_list (self s) !! 0 = Some (inst (self s))
       /\ inst_selected s
       /\ get_observables keys s = (Ok (observables (self s)), s)
       /\ (loader_aligned inst_open ->
           length (inst_list (self s)) = length (data_list (self s))).
Proof.
  split; [intros ->; reflexivity|].
  intros s H. unfold init in H.
  apply bind_ok_inv in H as (me & sa & Ha & H).
  unfold get_self in Ha. injection Ha as <- <-.
  apply bind_ok_inv in H as ([] & s1 & Hload & H).
  apply bind_ok_inv in H as (me' & sb & Hb & H).
  unfold get_self in Hb. injection Hb as <- <-.
  apply bind_ok_inv in H as (first & sc & Hc & H).
  unfold lift, list_getitem in Hc.
  destruct (inst_list (self s1) !! 0) as [x|] eqn:Hfirst; [|discriminate].
  injection Hc as <- <-.
  apply bind_ok_inv in H as ([] & s2 & Hset & H).
  assert (Hin : x ∈ inst_list (self s1)).
  { destruct (set_inst_cases x s1) as [[Hin E]|[Hin E]]; [exact Hin|].
    rewrite E in Hset. discriminate. }
  assert (Hs2 : self s2 = self (snd (assign_inst x s1))).
  { destruct (set_inst_cases x s1) as [[_ E]|[Hn _]]; [|contradiction].
    rewrite E in Hset. injection Hset as <-. reflexivity. }
  apply bind_ok_inv in H as (obs & s3 & Hobs & H).
  pose proof (get_observables_state keys s2) as Hst.
  rewrite Hobs in Hst. simpl in Hst. subst s3.
  apply set_observables_ok_inv in H.
  (* the load loop *)
  assert (Hinv : idir (self s1) = idir0
                 /\ fitsfiles (self s1) = fitsfiles0
                 /\ (loader_aligned inst_open ->
                     length (inst_list (self s1)) = length (data_list (self s1)))).
  { pose (P := fun t : state =>
                  idir (self t) = idir0
                  /\ fitsfiles (self t) = fitsfiles0
                  /\ (loader_aligned inst_open ->
                      length (inst_list (self t)) = length (data_list (self t)))).
    assert (Hstep : forall (i : nat) t t',
               P t -> load_file inst_open idir0 i t = (Ok tt, t') -> P t').
    { intros i t t' (J1 & J2 & J3) Hrun.
      apply load_file_inv in Hrun as (f & il & dl & w' & _ & Hopen & K1 & K2 & K3 & K4).
      split; [rewrite K1; exact J1|]. split; [rewrite K2; exact J2|].
      intros Hal. rewrite K3, K4, !length_app, (J3 Hal), (Hal _ _ _ _ _ _ Hopen).
      reflexivity. }
    assert (H0 : P (fresh idir0 fitsfiles0 w)).
    { split; [reflexivity|]. split; reflexivity. }
    exact (for_eachM_ok_invariant P _ _ Hstep _ _ H0 Hload). }
  destruct Hinv as (I1 & I2 & I3).
  assert (Hs : self s = self (snd (assign_observables obs s2))) by (rewrite H; reflexivity).
  cbn [assign_observables assign_inst snd self] in Hs, Hs2.
  assert (Hobs_s : observables (self s) = obs) by (rewrite Hs; reflexivity).
  assert (Hfld : observable_fields s2 = observable_fields s)
    by (unfold observable_fields; rewrite Hs; reflexivity).
  split; [rewrite Hs; cbn [idir]; rewrite Hs2; exact I1|].
  split; [rewrite Hs; cbn [fitsfiles]; rewrite Hs2; exact I2|].
  split; [rewrite Hs; cbn [inst_list inst]; rewrite Hs2; exact Hfirst|].
  split; [unfold inst_selected; rewrite Hs; cbn [inst_list inst]; rewrite Hs2; exact Hin|].
  split; [|rewrite Hs; cbn [inst_list data_list]; rewrite Hs2; exact I3].
  pose proof (get_observables_fields keys s2 s Hfld) as Hf.
  rewrite Hobs in Hf. cbn [fst] in Hf.
  pose proof (get_observables_state keys s) as Hstate.
  rewrite (surjective_pairing (get_observables keys s)).
  rewrite <- Hf, Hstate, Hobs_s. reflexivity.
Qed.

Lemma init_spec_witness :
  exists s,
    init session_loader session_keys "in/" ["a.fits"] (fs session) = (Ok tt, s)
    /\ idir (self s) = "in/"
    /\ fitsfiles (self s) = ["a.fits"]
    /\ inst_list (self s) !! 0 = Some (inst (self s))
    /\ inst_selected s
    /\ get_observables session_keys s = (Ok (observables (self s)), s)
    /\ (loader_aligned session_loader ->
        length (inst_list (self s)) = length (data_list (self s))).
Proof.
  eexists. split; [vm_compute; reflexivity|].
  apply (init_spec session_loader session_keys "in/" ["a.fits"] (fs session)).
  vm_compute. reflexivity.
Defined.
